(** * blugnu/msgpack: a shallow embedding of the streaming encoder

    The development follows the Go sources file by file:
    - [errors.go], [types.go]: sentinel errors and wire constants;
    - the [Encoder] with its primitive writer [Write], the header writers,
      the scalar encoders and the session controls;
    - [encoder.int.family.go]: the integer encoders;
    - [encode.array.go] and the map encoder: the generic container encoders.

    Go passes a value receiver by copy.  Every method declared on
    [Encoder] (not [*Encoder]) therefore works on a private copy of the
    two fields; the embedding makes that explicit: such a method takes
    the copy as an argument and whatever it assigns to the copy is
    dropped when it returns.  Methods declared on [*Encoder] act on the
    encoder stored in the [World]. *)

From Stdlib Require Import ZArith List Lia Bool String.
Import ListNotations.
Local Open Scope Z_scope.

(** ** Errors, panics and the outside world *)

(** A Go [byte]; well-formed values lie in 0..255. *)
Definition byte := Z.

Definition is_byte (b : byte) : Prop := 0 <= b <= 255.

(** [errors.go] declares two sentinels; [fmt.Errorf] with the [%w] verb
    wraps one of them; an [io.Writer] may hand back any error of its own. *)
Inductive error : Type :=
| ErrValueOutOfRange
| ErrUnsupportedType
| Errorf (context : string) (wrapped : error)
| WriterError (code : nat).

Fixpoint error_eqb (a b : error) : bool :=
  match a, b with
  | ErrValueOutOfRange, ErrValueOutOfRange => true
  | ErrUnsupportedType, ErrUnsupportedType => true
  | Errorf c1 w1, Errorf c2 w2 => String.eqb c1 c2 && error_eqb w1 w2
  | WriterError n1, WriterError n2 => Nat.eqb n1 n2
  | _, _ => false
  end.

(** [errors.Is]: walks the chain of wrapped errors. *)
Fixpoint errors_Is (e target : error) : bool :=
  error_eqb e target ||
  match e with
  | Errorf _ w => errors_Is w target
  | _ => false
  end.

(** A call either returns through its normal channel or unwinds the stack
    with a panic value. *)
Inductive outcome (A : Type) : Type :=
| Returned (a : A)
| Panicked (v : error).
Arguments Returned {A} a.
Arguments Panicked {A} v.

(** What one call of an [io.Writer]'s [Write] can do, as far as the
    encoder looks at it (the byte count is discarded by every caller). *)
Inductive write_result : Type :=
| WriteOk
| WriteErr (e : error)
| WritePanic (v : error).

(** An [io.Writer] is an object outside the encoder.  Its answer to a
    request may depend on everything it was asked before; [requests]
    records, oldest first, each byte slice handed to it.  A writer holds
    no reference to an encoder: answering a request changes nothing but
    the writer itself. *)
Record Writer : Type := mkWriter {
  behaviour : list (list byte) -> list byte -> write_result;
  requests : list (list byte)
}.

(** [type Encoder struct { out io.Writer; err error }]: [out] is a
    reference to a writer, [err] is [nil] or the retained error. *)
Record Encoder : Type := mkEncoder {
  out : nat;
  err : option error
}.

Definition with_err (enc : Encoder) (e : option error) : Encoder :=
  mkEncoder (out enc) e.
Definition with_out (enc : Encoder) (o : nat) : Encoder :=
  mkEncoder o (err enc).

(** The store: the writers, and the encoders that are reached through a
    pointer ([*Encoder]) or held in an addressable variable. *)
Record World : Type := mkWorld {
  writers : nat -> Writer;
  encoders : nat -> Encoder
}.

Definition upd {A : Type} (f : nat -> A) (k : nat) (v : A) : nat -> A :=
  fun k' => if Nat.eqb k' k then v else f k'.

(** Computations: state passing over the [World], with panics. *)
Definition M (A : Type) : Type := World -> World * outcome A.

Definition ret {A : Type} (a : A) : M A := fun w => (w, Returned a).

Definition panic {A : Type} (v : error) : M A := fun w => (w, Panicked v).

Definition bind {A B : Type} (m : M A) (k : A -> M B) : M B :=
  fun w =>
    match m w with
    | (w', Returned a) => k a w'
    | (w', Panicked v) => (w', Panicked v)
    end.

Notation "x <- m ;; k" := (bind m (fun x => k))
  (at level 61, m at next level, right associativity).
Notation "'_' '=' m ;; k" := (bind m (fun _ => k))
  (at level 61, m at next level, right associativity).

(** [out.Write(p)]: the request is recorded, the writer answers. *)
Definition io_Write (o : nat) (p : list byte) : M (option error) :=
  fun w =>
    let wr := writers w o in
    let w' := mkWorld (upd (writers w) o
                           (mkWriter (behaviour wr) (requests wr ++ [p])))
                      (encoders w) in
    match behaviour wr (requests wr) p with
    | WriteOk => (w', Returned None)
    | WriteErr e => (w', Returned (Some e))
    | WritePanic v => (w', Panicked v)
    end.

(** ** [types.go] *)

Definition minFixedInt : Z := -32.
Definition maxFixedInt : Z := 127.
Definition minFixedUint : Z := 0.
Definition maxFixedUint : Z := 127.

Definition atomNull : byte := 0xc0.
Definition atomNil : byte := atomNull.
Definition atomFalse : byte := 0xc2.
Definition atomTrue : byte := 0xc3.
Definition atomEmptyArray : byte := 0x90.
Definition atomEmptyMap : byte := 0x80.
Definition atomEmptyString : byte := 0xa0.
Definition atomZero : byte := 0x00.

Definition maskFixArray : byte := 0x90.
Definition maskFixInt : byte := 0x00.
Definition maskFixMap : byte := 0x80.
Definition maskFixString : byte := 0xa0.
Definition maskNegFixInt : byte := 0xe0.

Definition typeArray16 : byte := 0xdc.
Definition typeArray32 : byte := 0xdd.

Definition typeBin8 : byte := 0xc4.
Definition typeBin16 : byte := 0xc5.
Definition typeBin32 : byte := 0xc6.

Definition typeFloat32 : byte := 0xca.
Definition typeFloat64 : byte := 0xcb.

Definition typeMap16 : byte := 0xde.
Definition typeMap32 : byte := 0xdf.

Definition typeInt8 : byte := 0xd0.
Definition typeInt16 : byte := 0xd1.
Definition typeInt32 : byte := 0xd2.
Definition typeInt64 : byte := 0xd3.

Definition typeUint8 : byte := 0xcc.
Definition typeUint16 : byte := 0xcc.
Definition typeUint32 : byte := 0xcd.
Definition typeUint64 : byte := 0xce.

Definition typeString8 : byte := 0xd9.
Definition typeString16 : byte := 0xda.
Definition typeString32 : byte := 0xdb.

(** The bounds of package [math] used by the encoders. *)
Definition MinInt8 : Z := -128.
Definition MinInt16 : Z := -32768.
Definition MinInt32 : Z := -2147483648.
Definition MinInt64 : Z := -9223372036854775808.
Definition MaxInt64 : Z := 9223372036854775807.
Definition MaxUint8 : Z := 255.
Definition MaxUint16 : Z := 65535.
Definition MaxUint32 : Z := 4294967295.
Definition MaxUint64 : Z := 18446744073709551615.

(** ** Go values and conversions *)

(** Integer conversions truncate to the width of the target type. *)
Definition to_unsigned (bits : Z) (z : Z) : Z := z mod 2 ^ bits.
Definition to_signed (bits : Z) (z : Z) : Z :=
  (z + 2 ^ (bits - 1)) mod 2 ^ bits - 2 ^ (bits - 1).

Definition conv_byte : Z -> byte := to_unsigned 8.
Definition conv_uint8 : Z -> Z := to_unsigned 8.
Definition conv_uint16 : Z -> Z := to_unsigned 16.
Definition conv_uint32 : Z -> Z := to_unsigned 32.
Definition conv_uint64 : Z -> Z := to_unsigned 64.
Definition conv_int8 : Z -> Z := to_signed 8.
Definition conv_int16 : Z -> Z := to_signed 16.
Definition conv_int32 : Z -> Z := to_signed 32.
Definition conv_int64 : Z -> Z := to_signed 64.

(** The dynamic values an [any] can hold, as far as the encoder tells
    them apart.  [int] and [uint] are the 64-bit platform types.  A float
    is carried as its IEEE-754 bit pattern, which is what
    [math.Float32bits] and [math.Float64bits] return.  A [[]byte] may be
    [nil].  [VStruct] stands for a value of any other type, such as
    [struct{}{}]. *)
Inductive any : Type :=
| VNil
| VBool (b : bool)
| VInt (i : Z)
| VInt8 (i : Z)
| VInt16 (i : Z)
| VInt32 (i : Z)
| VInt64 (i : Z)
| VUint (i : Z)
| VUint8 (i : Z)
| VUint16 (i : Z)
| VUint32 (i : Z)
| VUint64 (i : Z)
| VFloat32 (bits : Z)
| VFloat64 (bits : Z)
| VString (s : list byte)
| VBytes (b : option (list byte))
| VIntSlice (s : list Z)
| VStruct.

(** [[]byte{byte(v >> 8), byte(v)}] and its wider siblings. *)
Definition be16 (v : Z) : list byte :=
  [conv_byte (Z.shiftr v 8); conv_byte v].
Definition be32 (v : Z) : list byte :=
  [conv_byte (Z.shiftr v 24); conv_byte (Z.shiftr v 16);
   conv_byte (Z.shiftr v 8); conv_byte v].
Definition be64 (v : Z) : list byte :=
  [conv_byte (Z.shiftr v 56); conv_byte (Z.shiftr v 48);
   conv_byte (Z.shiftr v 40); conv_byte (Z.shiftr v 32);
   conv_byte (Z.shiftr v 24); conv_byte (Z.shiftr v 16);
   conv_byte (Z.shiftr v 8); conv_byte v].

(** ** The primitive writer *)

(** The tail shared by every supported case of [Write]:
    [_, enc.err = enc.out.Write(p)] followed by [return enc.err].  The
    assignment lands in the receiver's copy. *)
Definition write_out (enc : Encoder) (p : list byte) : M (option error) :=
  e <- io_Write (out enc) p ;;
  let enc := with_err enc e in
  ret (err enc).

Definition Write (enc : Encoder) (b : any) : M (option error) :=
  match err enc with
  | Some e => ret (Some e)
  | None =>
    match b with
    | VUint8 v => write_out enc [v]
    | VBytes v => write_out enc (match v with Some p => p | None => [] end)
    | VInt8 v => write_out enc [conv_byte v]
    | VInt16 v => write_out enc (be16 v)
    | VUint16 v => write_out enc (be16 v)
    | VInt32 v => write_out enc (be32 v)
    | VUint32 v => write_out enc (be32 v)
    | VInt64 v => write_out enc (be64 v)
    | VUint64 v => write_out enc (be64 v)
    | VFloat32 bits => write_out enc (be32 bits)
    | VFloat64 bits => write_out enc (be64 bits)
    | _ => panic (Errorf "Write" ErrUnsupportedType)
    end
  end.

(** ** The encoder *)

Definition NewEncoder (o : nat) : Encoder := mkEncoder o None.

Definition len {T : Type} (s : list T) : Z := Z.of_nat (List.length s).

(** *** Header writers

    Each branch discards the results of its [Write] calls ([_ = ...]);
    the function then returns the [err] field of its own receiver. *)

Definition WriteArrayHeader (enc : Encoder) (n : Z) : M (option error) :=
  _ = (if n =? 0 then
         Write enc (VUint8 atomEmptyArray)
       else if n <? 16 then
         Write enc (VUint8 (Z.lor maskFixArray (conv_byte n)))
       else if n <? 65536 then
         _ = Write enc (VUint8 typeArray16) ;;
         Write enc (VUint16 (conv_uint16 n))
       else
         _ = Write enc (VUint8 typeArray32) ;;
         Write enc (VUint32 (conv_uint32 n))) ;;
  ret (err enc).

Definition WriteMapHeader (enc : Encoder) (n : Z) : M (option error) :=
  _ = (if n =? 0 then
         Write enc (VUint8 atomEmptyMap)
       else if n <? 16 then
         Write enc (VUint8 (Z.lor maskFixMap (conv_byte n)))
       else if n <? 65536 then
         _ = Write enc (VUint8 typeMap16) ;;
         Write enc (VUint16 (conv_uint16 n))
       else
         _ = Write enc (VUint8 typeMap32) ;;
         Write enc (VUint32 (conv_uint32 n))) ;;
  ret (err enc).

Definition WriteStringHeader (enc : Encoder) (n : Z) : M (option error) :=
  _ = (if n <? 32 then
         Write enc (VUint8 (Z.lor maskFixString (conv_byte n)))
       else if n <? 256 then
         _ = Write enc (VUint8 typeString8) ;;
         Write enc (VUint8 (conv_byte n))
       else if n <? 65536 then
         _ = Write enc (VUint8 typeString16) ;;
         Write enc (VUint16 (conv_uint16 n))
       else
         _ = Write enc (VUint8 typeString32) ;;
         Write enc (VUint32 (conv_uint32 n))) ;;
  ret (err enc).

(** *** Scalars other than integers *)

Definition EncodeBool (enc : Encoder) (b : bool) : M (option error) :=
  if b then Write enc (VUint8 atomTrue) else Write enc (VUint8 atomFalse).

Definition EncodeBytes (enc : Encoder) (b : option (list byte))
  : M (option error) :=
  match b with
  | None => Write enc (VUint8 atomNil)
  | Some p =>
    if len p <? 256 then
      _ = Write enc (VUint8 typeBin8) ;;
      _ = Write enc (VUint8 (conv_byte (len p))) ;;
      Write enc (VBytes b)
    else if len p <? 65536 then
      _ = Write enc (VUint8 typeBin16) ;;
      _ = Write enc (VUint16 (conv_uint16 (len p))) ;;
      Write enc (VBytes b)
    else
      _ = Write enc (VUint8 typeBin32) ;;
      _ = Write enc (VUint32 (conv_uint32 (len p))) ;;
      Write enc (VBytes b)
  end.

Definition EncodeFloat32 (enc : Encoder) (f : Z) : M (option error) :=
  _ = Write enc (VUint8 typeFloat32) ;;
  Write enc (VFloat32 f).

Definition EncodeFloat64 (enc : Encoder) (f : Z) : M (option error) :=
  _ = Write enc (VUint8 typeFloat64) ;;
  Write enc (VFloat64 f).

(** [io.WriteString(enc.out, s)] hands the bytes of [s] to the writer. *)
Definition EncodeString (enc : Encoder) (s : list byte) : M (option error) :=
  e <- WriteStringHeader enc (len s) ;;
  match e with
  | None =>
    e' <- io_Write (out enc) s ;;
    let enc := with_err enc e' in
    ret (err enc)
  | Some _ => ret (err enc)
  end.

(** *** [encoder.int.family.go] *)

Definition EncodeFixedInt (enc : Encoder) (i : Z) : M (option error) :=
  if (i <? minFixedInt) || (i >? maxFixedInt) then
    panic (Errorf "EncodeFixedInt" ErrValueOutOfRange)
  else
    Write enc (VUint8 (conv_byte i)).

Definition EncodeInt8 (enc : Encoder) (i : Z) : M (option error) :=
  if i <? minFixedInt then
    _ = Write enc (VUint8 typeInt8) ;;
    Write enc (VInt8 i)
  else
    Write enc (VUint8 (conv_byte i)).

Definition EncodeInt16 (enc : Encoder) (i : Z) : M (option error) :=
  if i <? MinInt8 then
    _ = Write enc (VUint8 typeInt16) ;;
    Write enc (VInt16 (conv_int16 i))
  else if i <? minFixedInt then
    _ = Write enc (VUint8 typeInt8) ;;
    Write enc (VInt8 (conv_int8 i))
  else if i <=? maxFixedInt then
    Write enc (VUint8 (conv_byte i))
  else if i <=? MaxUint8 then
    _ = Write enc (VUint8 typeUint8) ;;
    Write enc (VUint8 (conv_uint8 i))
  else
    _ = Write enc (VUint8 typeInt16) ;;
    Write enc (VInt16 i).

Definition EncodeInt32 (enc : Encoder) (i : Z) : M (option error) :=
  if i <? MinInt16 then
    _ = Write enc (VUint8 typeInt32) ;;
    Write enc (VInt32 (conv_int32 i))
  else if i <? MinInt8 then
    _ = Write enc (VUint8 typeInt16) ;;
    Write enc (VInt16 (conv_int16 i))
  else if i <? minFixedInt then
    _ = Write enc (VUint8 typeInt8) ;;
    Write enc (VInt8 (conv_int8 i))
  else if i <=? maxFixedInt then
    Write enc (VUint8 (conv_byte i))
  else if i <=? MaxUint8 then
    _ = Write enc (VUint8 typeUint8) ;;
    Write enc (VUint8 (conv_uint8 i))
  else if i <=? MaxUint16 then
    _ = Write enc (VUint8 typeUint16) ;;
    Write enc (VUint16 (conv_uint16 i))
  else
    _ = Write enc (VUint8 typeInt32) ;;
    Write enc (VInt32 i).

Definition EncodeInt64 (enc : Encoder) (i : Z) : M (option error) :=
  if i <? MinInt32 then
    _ = Write enc (VUint8 typeInt64) ;;
    Write enc (VInt64 i)
  else if i <? MinInt16 then
    _ = Write enc (VUint8 typeInt32) ;;
    Write enc (VInt32 (conv_int32 i))
  else if i <? MinInt8 then
    _ = Write enc (VUint8 typeInt16) ;;
    Write enc (VInt16 (conv_int16 i))
  else if i <? minFixedInt then
    _ = Write enc (VUint8 typeInt8) ;;
    Write enc (VInt8 (conv_int8 i))
  else if i <=? maxFixedInt then
    Write enc (VUint8 (conv_byte i))
  else if i <=? MaxUint8 then
    _ = Write enc (VUint8 typeUint8) ;;
    Write enc (VUint8 (conv_uint8 i))
  else if i <=? MaxUint16 then
    _ = Write enc (VUint8 typeUint16) ;;
    Write enc (VUint16 (conv_uint16 i))
  else if i <=? MaxUint32 then
    _ = Write enc (VUint8 typeUint32) ;;
    Write enc (VUint32 (conv_uint32 i))
  else
    _ = Write enc (VUint8 typeUint64) ;;
    Write enc (VInt64 i).

Definition EncodeUint8 (enc : Encoder) (i : Z) : M (option error) :=
  if i <=? maxFixedUint then
    Write enc (VUint8 (conv_byte i))
  else
    _ = Write enc (VUint8 typeUint8) ;;
    Write enc (VUint8 i).

Definition EncodeUint16 (enc : Encoder) (i : Z) : M (option error) :=
  if i <=? maxFixedUint then
    Write enc (VUint8 (conv_byte i))
  else if i <=? MaxUint8 then
    _ = Write enc (VUint8 typeUint8) ;;
    Write enc (VUint8 (conv_uint8 i))
  else
    _ = Write enc (VUint8 typeUint16) ;;
    Write enc (VUint16 i).

Definition EncodeUint32 (enc : Encoder) (i : Z) : M (option error) :=
  if i <=? maxFixedUint then
    Write enc (VUint8 (conv_byte i))
  else if i <=? MaxUint8 then
    _ = Write enc (VUint8 typeUint8) ;;
    Write enc (VUint8 (conv_uint8 i))
  else if i <=? MaxUint16 then
    _ = Write enc (VUint8 typeUint16) ;;
    Write enc (VUint16 (conv_uint16 i))
  else
    _ = Write enc (VUint8 typeUint32) ;;
    Write enc (VUint32 i).

Definition EncodeUint64 (enc : Encoder) (i : Z) : M (option error) :=
  if i <=? maxFixedUint then
    Write enc (VUint8 (conv_byte i))
  else if i <=? MaxUint8 then
    _ = Write enc (VUint8 typeUint8) ;;
    Write enc (VUint8 (conv_uint8 i))
  else if i <=? MaxUint16 then
    _ = Write enc (VUint8 typeUint16) ;;
    Write enc (VUint16 (conv_uint16 i))
  else if i <=? MaxUint32 then
    _ = Write enc (VUint8 typeUint32) ;;
    Write enc (VUint32 (conv_uint32 i))
  else
    _ = Write enc (VUint8 typeUint64) ;;
    Write enc (VUint64 i).

Definition EncodeInt (enc : Encoder) (i : Z) : M (option error) :=
  if i <? MinInt32 then
    _ = Write enc (VUint8 typeInt64) ;;
    Write enc (VInt64 (conv_int64 i))
  else if i <? MinInt16 then
    _ = Write enc (VUint8 typeInt32) ;;
    Write enc (VInt32 (conv_int32 i))
  else if i <? MinInt8 then
    _ = Write enc (VUint8 typeInt16) ;;
    Write enc (VInt16 (conv_int16 i))
  else if i <? minFixedInt then
    _ = Write enc (VUint8 typeInt8) ;;
    Write enc (VInt8 (conv_int8 i))
  else if i <=? maxFixedInt then
    Write enc (VUint8 (conv_byte i))
  else if i <=? MaxUint8 then
    _ = Write enc (VUint8 typeUint8) ;;
    Write enc (VUint8 (conv_uint8 i))
  else if i <=? MaxUint16 then
    _ = Write enc (VUint8 typeUint16) ;;
    Write enc (VUint16 (conv_uint16 i))
  else if i <=? MaxUint32 then
    _ = Write enc (VUint8 typeUint32) ;;
    Write enc (VUint32 (conv_uint32 i))
  else
    _ = Write enc (VUint8 typeUint64) ;;
    Write enc (VInt64 (conv_int64 i)).

Definition EncodeUint (enc : Encoder) (i : Z) : M (option error) :=
  if i <=? maxFixedUint then
    Write enc (VUint8 (conv_byte i))
  else if i <=? MaxUint8 then
    _ = Write enc (VUint8 typeUint8) ;;
    Write enc (VUint8 (conv_uint8 i))
  else if i <=? MaxUint16 then
    _ = Write enc (VUint8 typeUint16) ;;
    Write enc (VUint16 (conv_uint16 i))
  else if i <=? MaxUint32 then
    _ = Write enc (VUint8 typeUint32) ;;
    Write enc (VUint32 (conv_uint32 i))
  else
    _ = Write enc (VUint8 typeUint64) ;;
    Write enc (VUint64 (conv_uint64 i)).

(** *** [encode.array.go] and the map encoder

    [for _, v := range s { if enc.err != nil { break }; enc.err = fn(enc, v) }]
    The loop assigns to the [err] field of the function's own [enc]; each
    call of [fn] receives the current copy.  The loop hands back the copy
    as it stands when the loop is left. *)
Fixpoint EncodeArray_range {T : Type} (enc : Encoder) (s : list T)
    (fn : Encoder -> T -> M (option error)) : M Encoder :=
  match s with
  | [] => ret enc
  | v :: rest =>
    match err enc with
    | Some _ => ret enc
    | None =>
      e <- fn enc v ;;
      EncodeArray_range (with_err enc e) rest fn
    end
  end.

(** [EncodeArray] once [fn] is known not to be [nil]: the header, the
    early return, the loop and the final [return enc.err]. *)
Definition EncodeArray_fn {T : Type} (enc : Encoder) (s : list T)
    (fn : Encoder -> T -> M (option error)) : M (option error) :=
  e <- WriteArrayHeader enc (len s) ;;
  match e with
  | Some e => ret (Some e)
  | None =>
    enc' <- EncodeArray_range enc s fn ;;
    ret (err enc')
  end.

(** A Go map is ranged over in an order the runtime picks; [m] lists the
    entries in the order of this run. *)
Fixpoint EncodeMap_range {K V : Type} (enc : Encoder) (m : list (K * V))
    (fn : Encoder -> K -> V -> M (option error)) : M Encoder :=
  match m with
  | [] => ret enc
  | (k, v) :: rest =>
    match err enc with
    | Some _ => ret enc
    | None =>
      e <- fn enc k v ;;
      EncodeMap_range (with_err enc e) rest fn
    end
  end.

(** *** The dynamic dispatch encoder *)

Definition Encode (enc : Encoder) (v : any) : M (option error) :=
  match v with
  | VNil => Write enc (VUint8 atomNil)
  | VBool b =>
    if b then Write enc (VUint8 atomTrue) else Write enc (VUint8 atomFalse)
  | VInt i => EncodeInt enc i
  | VInt8 i => EncodeInt8 enc i
  | VInt16 i => EncodeInt16 enc i
  | VInt32 i => EncodeInt32 enc i
  | VInt64 i => EncodeInt64 enc i
  | VUint i => EncodeUint enc i
  | VUint8 i => EncodeUint8 enc i
  | VUint16 i => EncodeUint16 enc i
  | VUint32 i => EncodeUint32 enc i
  | VUint64 i => EncodeUint64 enc i
  | VIntSlice s => EncodeArray_fn enc s (fun enc v => EncodeInt enc v)
  | VString s => EncodeString enc s
  | _ => panic (Errorf "Encode" ErrUnsupportedType)
  end.

(** [EncodeArray[T any]]: [box] is the conversion of a [T] to [any] that
    the default item encoder performs when it calls [enc.Encode(v)]; a
    [nil] function is [None]. *)
Definition EncodeArray {T : Type} (box : T -> any) (enc : Encoder)
    (s : list T) (fn : option (Encoder -> T -> M (option error)))
  : M (option error) :=
  EncodeArray_fn enc s
    (match fn with
     | Some f => f
     | None => fun enc v => Encode enc (box v)
     end).

Definition EncodeMap {K V : Type} (boxK : K -> any) (boxV : V -> any)
    (enc : Encoder) (m : list (K * V))
    (fn : option (Encoder -> K -> V -> M (option error)))
  : M (option error) :=
  e <- WriteMapHeader enc (len m) ;;
  match e with
  | Some e => ret (Some e)
  | None =>
    let fn := match fn with
              | Some f => f
              | None => fun enc k v =>
                          _ = Encode enc (boxK k) ;;
                          Encode enc (boxV v)
              end in
    enc' <- EncodeMap_range enc m fn ;;
    ret (err enc')
  end.

(** *** Session controls: the methods on [*Encoder] *)

Definition set_encoder (p : nat) (enc : Encoder) (w : World) : World :=
  mkWorld (writers w) (upd (encoders w) p enc).

Definition ResetError (p : nat) : M (option error) :=
  fun w =>
    let e := err (encoders w p) in
    (set_encoder p (with_err (encoders w p) None) w, Returned e).

Definition SetWriter (p : nat) (o : nat) : M unit :=
  fun w => (set_encoder p (with_out (encoders w p) o) w, Returned tt).

(** [defer f()]: [f] runs when the body is left, by return or by panic. *)
Definition defer {A : Type} (f : World -> World) (body : M A) : M A :=
  fun w => let (w', r) := body w in (f w', r).

(** [fn] is a closure; it reaches the encoder, if at all, through the
    [World]. *)
Definition Using (p : nat) (dest : nat) (fn : M (option error))
  : M (option error) :=
  fun w =>
    let og := out (encoders w p) in
    defer (fun w' => set_encoder p (with_out (encoders w' p) og) w')
      (fun w0 =>
         let w1 := set_encoder p (with_out (encoders w0 p) dest) w0 in
         (e <- fn ;;
          fun w2 =>
            let w3 := set_encoder p (with_err (encoders w2 p) e) w2 in
            (w3, Returned (err (encoders w3 p)))) w1)
      w.

(** A method with a value receiver called on the encoder stored at [p]:
    the callee gets a copy of what is stored there. *)
Definition call_on {A : Type} (p : nat) (method : Encoder -> M A) : M A :=
  fun w => method (encoders w p) w.

(** *** The value-receiver methods as one family *)

Inductive call : Type :=
| CallWrite (b : any)
| CallEncode (v : any)
| CallWriteArrayHeader (n : Z)
| CallWriteMapHeader (n : Z)
| CallWriteStringHeader (n : Z)
| CallEncodeBool (b : bool)
| CallEncodeBytes (b : option (list byte))
| CallEncodeFloat32 (f : Z)
| CallEncodeFloat64 (f : Z)
| CallEncodeString (s : list byte)
| CallEncodeFixedInt (i : Z)
| CallEncodeInt8 (i : Z)
| CallEncodeInt16 (i : Z)
| CallEncodeInt32 (i : Z)
| CallEncodeInt64 (i : Z)
| CallEncodeInt (i : Z)
| CallEncodeUint8 (i : Z)
| CallEncodeUint16 (i : Z)
| CallEncodeUint32 (i : Z)
| CallEncodeUint64 (i : Z)
| CallEncodeUint (i : Z).

Definition invoke (enc : Encoder) (c : call) : M (option error) :=
  match c with
  | CallWrite b => Write enc b
  | CallEncode v => Encode enc v
  | CallWriteArrayHeader n => WriteArrayHeader enc n
  | CallWriteMapHeader n => WriteMapHeader enc n
  | CallWriteStringHeader n => WriteStringHeader enc n
  | CallEncodeBool b => EncodeBool enc b
  | CallEncodeBytes b => EncodeBytes enc b
  | CallEncodeFloat32 f => EncodeFloat32 enc f
  | CallEncodeFloat64 f => EncodeFloat64 enc f
  | CallEncodeString s => EncodeString enc s
  | CallEncodeFixedInt i => EncodeFixedInt enc i
  | CallEncodeInt8 i => EncodeInt8 enc i
  | CallEncodeInt16 i => EncodeInt16 enc i
  | CallEncodeInt32 i => EncodeInt32 enc i
  | CallEncodeInt64 i => EncodeInt64 enc i
  | CallEncodeInt i => EncodeInt enc i
  | CallEncodeUint8 i => EncodeUint8 enc i
  | CallEncodeUint16 i => EncodeUint16 enc i
  | CallEncodeUint32 i => EncodeUint32 enc i
  | CallEncodeUint64 i => EncodeUint64 enc i
  | CallEncodeUint i => EncodeUint enc i
  end.

(** ** Test fixtures

    [NewTestEncoder] of the test suite: an encoder on a fresh
    [bytes.Buffer], which accepts every write. *)
Definition buffer : Writer := mkWriter (fun _ _ => WriteOk) [].

Definition fresh_world : World :=
  mkWorld (fun _ => buffer) (fun _ => NewEncoder 0%nat).

Definition contents (w : World) (o : nat) : list byte :=
  List.concat (requests (writers w o)).

(** The bytes a call leaves in the fresh buffer number 0. *)
Definition written {A : Type} (m : M A) : list byte :=
  contents (fst (m fresh_world)) 0%nat.

Definition result {A : Type} (m : M A) : outcome A := snd (m fresh_world).

(** A writer that rejects its first request with [e] and accepts every
    later one, and a writer that rejects every request. *)
Definition rejects_first (e : error) : Writer :=
  mkWriter (fun h _ => match h with [] => WriteErr e | _ => WriteOk end) [].

Definition rejects_all (e : error) : Writer :=
  mkWriter (fun _ _ => WriteErr e) [].

Definition world_with (wr : Writer) : World :=
  mkWorld (fun _ => wr) (fun _ => NewEncoder 0%nat).

(** ** The sticky state: an encoder copy whose [err] is set *)

Definition sticky (e : error) (m : M (option error)) : Prop :=
  forall w, m w = (w, Returned (Some e)).

(** What a call does on a copy in the sticky state, apart from writing
    nothing: most calls hand the sticky error back; two contract checks
    come before any look at [err].  [Encode] of a float or of a [[]byte]
    is left open here. *)
Inductive verdict : Type :=
| ReturnsSticky
| PanicsOutOfRange
| PanicsUnsupported
| Unsettled.

Definition sticky_verdict (c : call) : verdict :=
  match c with
  | CallEncodeFixedInt i =>
    if (i <? minFixedInt) || (i >? maxFixedInt)
    then PanicsOutOfRange else ReturnsSticky
  | CallEncode VStruct => PanicsUnsupported
  | CallEncode (VFloat32 _) => Unsettled
  | CallEncode (VFloat64 _) => Unsettled
  | CallEncode (VBytes _) => Unsettled
  | _ => ReturnsSticky
  end.

Definition meets (e : error) (v : verdict) (r : outcome (option error)) : Prop :=
  match v with
  | ReturnsSticky => r = Returned (Some e)
  | PanicsOutOfRange =>
    exists x, r = Panicked x /\ errors_Is x ErrValueOutOfRange = true
  | PanicsUnsupported =>
    exists x, r = Panicked x /\ errors_Is x ErrUnsupportedType = true
  | Unsettled => True
  end.

(** ** Frame: what a computation leaves of the stored encoders *)

Definition preserves_encoders {A : Type} (m : M A) : Prop :=
  forall w, encoders (fst (m w)) = encoders w.

(** ** MessagePack, as the format defines it

    The single-byte integer forms: positive fixint [0xxxxxxx] and
    negative fixint [111yyyyy]. *)
Definition fixint_byte (i : Z) : byte := if 0 <=? i then i else 256 + i.

Definition decode_fixint (b : byte) : option Z :=
  if (0 <=? b) && (b <=? 0x7f) then Some b
  else if (0xe0 <=? b) && (b <=? 0xff) then Some (b - 256)
  else None.

(** The value of a big-endian run of bytes. *)
Definition be_value (bs : list byte) : Z :=
  fold_left (fun acc b => acc * 256 + b) bs 0.

(** The header tiers of the format (section 4.2 of the specification),
    written from the table: what a header for a count [n] looks like,
    and how a reader gets the count back from the tag and length bytes. *)
Definition array_header (n : Z) : list byte :=
  if n <=? 15 then [0x90 + n]
  else if n <=? 65535 then [0xdc; n / 256; n mod 256]
  else [0xdd; n / 16777216; n / 65536 mod 256; n / 256 mod 256; n mod 256].

Definition map_header (n : Z) : list byte :=
  if n <=? 15 then [0x80 + n]
  else if n <=? 65535 then [0xde; n / 256; n mod 256]
  else [0xdf; n / 16777216; n / 65536 mod 256; n / 256 mod 256; n mod 256].

Definition string_header (n : Z) : list byte :=
  if n <=? 31 then [0xa0 + n]
  else if n <=? 255 then [0xd9; n]
  else if n <=? 65535 then [0xda; n / 256; n mod 256]
  else [0xdb; n / 16777216; n / 65536 mod 256; n / 256 mod 256; n mod 256].

Definition decode_array_header (bs : list byte) : option Z :=
  match bs with
  | [t] => if (0x90 <=? t) && (t <=? 0x9f) then Some (Z.land t 0x0f) else None
  | [t; a; b] => if t =? 0xdc then Some (be_value [a; b]) else None
  | [t; a; b; c; d] => if t =? 0xdd then Some (be_value [a; b; c; d]) else None
  | _ => None
  end.

Definition decode_map_header (bs : list byte) : option Z :=
  match bs with
  | [t] => if (0x80 <=? t) && (t <=? 0x8f) then Some (Z.land t 0x0f) else None
  | [t; a; b] => if t =? 0xde then Some (be_value [a; b]) else None
  | [t; a; b; c; d] => if t =? 0xdf then Some (be_value [a; b; c; d]) else None
  | _ => None
  end.

Definition decode_string_header (bs : list byte) : option Z :=
  match bs with
  | [t] => if (0xa0 <=? t) && (t <=? 0xbf) then Some (Z.land t 0x1f) else None
  | [t; a] => if t =? 0xd9 then Some a else None
  | [t; a; b] => if t =? 0xda then Some (be_value [a; b]) else None
  | [t; a; b; c; d] => if t =? 0xdb then Some (be_value [a; b; c; d]) else None
  | _ => None
  end.

(** The claim that a header written for [n] reads back as [n]. *)
Definition header_reads_back (write : Encoder -> Z -> M (option error))
    (decode : list byte -> option Z) (n : Z) : Prop :=
  decode (written (write (NewEncoder 0) n)) = Some n.

(** ** The integer family as one family *)

Inductive int_type : Type :=
| TInt8 | TInt16 | TInt32 | TInt64 | TInt
| TUint8 | TUint16 | TUint32 | TUint64 | TUint.

Definition int_min (t : int_type) : Z :=
  match t with
  | TInt8 => MinInt8
  | TInt16 => MinInt16
  | TInt32 => MinInt32
  | TInt64 | TInt => MinInt64
  | _ => 0
  end.

Definition int_max (t : int_type) : Z :=
  match t with
  | TInt8 => 127
  | TInt16 => 32767
  | TInt32 => 2147483647
  | TInt64 | TInt => MaxInt64
  | TUint8 => MaxUint8
  | TUint16 => MaxUint16
  | TUint32 => MaxUint32
  | TUint64 | TUint => MaxUint64
  end.

(** The values of the Go type [t]. *)
Definition in_range (t : int_type) (i : Z) : Prop := int_min t <= i <= int_max t.

Definition encode_as (t : int_type) : Encoder -> Z -> M (option error) :=
  match t with
  | TInt8 => EncodeInt8
  | TInt16 => EncodeInt16
  | TInt32 => EncodeInt32
  | TInt64 => EncodeInt64
  | TInt => EncodeInt
  | TUint8 => EncodeUint8
  | TUint16 => EncodeUint16
  | TUint32 => EncodeUint32
  | TUint64 => EncodeUint64
  | TUint => EncodeUint
  end.

(** The integer forms of the MessagePack format: a single fixint byte,
    or a tag followed by a big-endian payload: 0xcc..0xcf for uint 8, 16,
    32, 64 and 0xd0..0xd3 for int 8, 16, 32, 64. *)
Definition decode_tagged_int (t : byte) (payload : list byte) : option Z :=
  let n := len payload in
  if t =? 0xcc then if n =? 1 then Some (be_value payload) else None
  else if t =? 0xcd then if n =? 2 then Some (be_value payload) else None
  else if t =? 0xce then if n =? 4 then Some (be_value payload) else None
  else if t =? 0xcf then if n =? 8 then Some (be_value payload) else None
  else if t =? 0xd0 then
    if n =? 1 then Some (to_signed 8 (be_value payload)) else None
  else if t =? 0xd1 then
    if n =? 2 then Some (to_signed 16 (be_value payload)) else None
  else if t =? 0xd2 then
    if n =? 4 then Some (to_signed 32 (be_value payload)) else None
  else if t =? 0xd3 then
    if n =? 8 then Some (to_signed 64 (be_value payload)) else None
  else None.

Definition msgpack_decode_int (bs : list byte) : option Z :=
  match bs with
  | [] => None
  | [b] => decode_fixint b
  | t :: payload => decode_tagged_int t payload
  end.

(** The length of the shortest integer form that can carry [i]. *)
Definition msgpack_int_size (i : Z) : Z :=
  if (-32 <=? i) && (i <=? 127) then 1
  else if (-128 <=? i) && (i <=? 255) then 2
  else if (-32768 <=? i) && (i <=? 65535) then 3
  else if (-2147483648 <=? i) && (i <=? 4294967295) then 5
  else 9.

(** A tagged form whose tag is one of the signed ones. *)
Definition is_signed_form (bs : list byte) : bool :=
  match bs with
  | t :: _ :: _ => (0xd0 <=? t) && (t <=? 0xd3)
  | _ => false
  end.

(** For a non-negative value the unsigned form of a width is never longer
    than the signed form of that width; preferring the unsigned form
    whenever it is no longer means that a non-negative value is never
    written in a signed form. *)
Definition prefers_unsigned (i : Z) (bs : list byte) : Prop :=
  0 <= i -> is_signed_form bs = false.

(** ** Writers that accept every request, such as a [bytes.Buffer] *)

Definition accepts_all (wr : Writer) : Prop :=
  forall h p, behaviour wr h p = WriteOk.

(** [m] returns nil and adds exactly [bs] to what writer [o] holds, as
    long as that writer accepts every request; no other writer is
    touched. *)
Definition appends (m : M (option error)) (o : nat) (bs : list byte) : Prop :=
  forall w, accepts_all (writers w o) ->
    snd (m w) = Returned None /\
    accepts_all (writers (fst (m w)) o) /\
    contents (fst (m w)) o = contents w o ++ bs /\
    (forall o', o' <> o -> writers (fst (m w)) o' = writers w o').

(** The bytes [Write] hands to the writer for a value of a supported
    type. *)
Definition wire (b : any) : option (list byte) :=
  match b with
  | VUint8 v => Some [v]
  | VBytes v => Some (match v with Some p => p | None => [] end)
  | VInt8 v => Some [conv_byte v]
  | VInt16 v | VUint16 v => Some (be16 v)
  | VInt32 v | VUint32 v | VFloat32 v => Some (be32 v)
  | VInt64 v | VUint64 v | VFloat64 v => Some (be64 v)
  | _ => None
  end.

(** ** Writers that may reject but never panic *)

Definition calm (w : World) : Prop :=
  forall o h p v, behaviour (writers w o) h p <> WritePanic v.

(** The world after writer [o] has recorded the request [p]. *)
Definition log (o : nat) (p : list byte) (w : World) : World :=
  mkWorld (upd (writers w) o
               (mkWriter (behaviour (writers w o))
                         (requests (writers w o) ++ [p])))
          (encoders w).

Definition log_all (o : nat) (ps : list (list byte)) (w : World) : World :=
  fold_left (fun w p => log o p w) ps w.

(** What writer [o] answers to [p] in [w], as the error value the
    caller sees. *)
Definition answer (w : World) (o : nat) (p : list byte) : option error :=
  match behaviour (writers w o) (requests (writers w o)) p with
  | WriteErr e => Some e
  | _ => None
  end.

(** The answers to a run of requests, one after the other. *)
Fixpoint answers (w : World) (o : nat) (ps : list (list byte))
  : list (option error) :=
  match ps with
  | [] => []
  | p :: rest => answer w o p :: answers (log o p w) o rest
  end.

(** The requests a call sends to the fresh buffer number 0. *)
Definition requested {A : Type} (m : M A) : list (list byte) :=
  requests (writers (fst (m fresh_world)) 0%nat).

(** ** Strings and binary data, as the format defines them *)

Definition bin_header (n : Z) : list byte :=
  if n <=? 255 then [0xc4; n]
  else if n <=? 65535 then [0xc5; n / 256; n mod 256]
  else [0xc6; n / 16777216; n / 65536 mod 256; n / 256 mod 256; n mod 256].

(** The body that follows a header announcing [n] bytes. *)
Definition take_exactly (n : Z) (body : list byte) : option (list byte) :=
  if n =? len body then Some body else None.

Definition decode_string (bs : list byte) : option (list byte) :=
  match bs with
  | [] => None
  | t :: rest =>
    if (0xa0 <=? t) && (t <=? 0xbf) then take_exactly (Z.land t 0x1f) rest
    else if t =? 0xd9 then
      match rest with
      | a :: body => take_exactly a body
      | _ => None
      end
    else if t =? 0xda then
      match rest with
      | a :: b :: body => take_exactly (be_value [a; b]) body
      | _ => None
      end
    else if t =? 0xdb then
      match rest with
      | a :: b :: c :: d :: body => take_exactly (be_value [a; b; c; d]) body
      | _ => None
      end
    else None
  end.

(** A binary value is [nil] (the nil atom) or a run of bytes. *)
Definition decode_bin (bs : list byte) : option (option (list byte)) :=
  match bs with
  | [] => None
  | t :: rest =>
    if t =? 0xc0 then
      match rest with
      | [] => Some None
      | _ => None
      end
    else if t =? 0xc4 then
      match rest with
      | a :: body => option_map Some (take_exactly a body)
      | _ => None
      end
    else if t =? 0xc5 then
      match rest with
      | a :: b :: body => option_map Some (take_exactly (be_value [a; b]) body)
      | _ => None
      end
    else if t =? 0xc6 then
      match rest with
      | a :: b :: c :: d :: body =>
        option_map Some (take_exactly (be_value [a; b; c; d]) body)
      | _ => None
      end
    else None
  end.

(** A computation that, where no writer panics, returns and leaves a
    world where no writer panics. *)
Definition returns {A : Type} (m : M A) : Prop :=
  forall w, calm w -> calm (fst (m w)) /\ exists a, snd (m w) = Returned a.

(** The dynamic types the type switch of [Encode] has a case for. *)
Definition Encode_has_case (v : any) : bool :=
  match v with
  | VFloat32 _ | VFloat64 _ | VBytes _ | VStruct => false
  | _ => true
  end.

(** An integer encoder other than the two that keep a signed form for a
    non-negative value: [EncodeInt16] from 256 and [EncodeInt32] from
    65536. *)
Definition unsigned_above_127 (t : int_type) (i : Z) : Prop :=
  ~ (t = TInt16 /\ 256 <= i) /\ ~ (t = TInt32 /\ 65536 <= i).

(** ** [string.go]

    [buf.Reset()] empties a [bytes.Buffer]. *)
Definition buffer_Reset (o : nat) (w : World) : World :=
  mkWorld (upd (writers w) o (mkWriter (behaviour (writers w o)) []))
          (encoders w).

(** [String(s)], for the pooled encoder [p] that [sw.Get()] hands out:
    its buffer is reset, [enc.EncodeString(s)] is called on it and a
    copy of the buffer's bytes is returned.  The pool itself (a
    [sync.Pool], to which [p] goes back on return) is not modelled. *)
Definition String' (p : nat) (s : list byte) : M (list byte) :=
  fun w =>
    let buf := out (encoders w p) in
    (r <- call_on p (fun enc => EncodeString enc s) ;;
     fun w2 => (w2, Returned (contents w2 buf)))
      (buffer_Reset buf w).

(** * Properties of the encoder *)

Lemma sticky_ret e : sticky e (ret (Some e)).
Proof. intros w; reflexivity. Qed.

Lemma sticky_bind e (m : M (option error)) (k : option error -> M (option error)) :
  sticky e m -> (forall a, sticky e (k a)) -> sticky e (bind m k).
Proof.
  intros Hm Hk w. unfold bind. rewrite Hm. apply Hk.
Qed.

Lemma sticky_Write e enc b : err enc = Some e -> sticky e (Write enc b).
Proof.
  intros H w. unfold Write. rewrite H. reflexivity.
Qed.

Ltac sticky_step H :=
  first
    [ apply sticky_Write; exact H
    | apply sticky_ret
    | apply sticky_bind; [ | intros ? ]
    | match goal with
      | |- sticky _ (if ?b then _ else _) => destruct b
      | |- sticky _ (match ?x with _ => _ end) => destruct x
      end ].

Ltac sticky_tac H := repeat (sticky_step H).

Lemma sticky_WriteArrayHeader e enc n :
  err enc = Some e -> sticky e (WriteArrayHeader enc n).
Proof.
  intros H. unfold WriteArrayHeader. rewrite H. sticky_tac H.
Qed.

Lemma sticky_WriteMapHeader e enc n :
  err enc = Some e -> sticky e (WriteMapHeader enc n).
Proof.
  intros H. unfold WriteMapHeader. rewrite H. sticky_tac H.
Qed.

Lemma sticky_WriteStringHeader e enc n :
  err enc = Some e -> sticky e (WriteStringHeader enc n).
Proof.
  intros H. unfold WriteStringHeader. rewrite H. sticky_tac H.
Qed.

Lemma sticky_EncodeString e enc s :
  err enc = Some e -> sticky e (EncodeString enc s).
Proof.
  intros H w. unfold EncodeString, bind.
  rewrite (sticky_WriteStringHeader e enc _ H). rewrite H. reflexivity.
Qed.

Lemma sticky_EncodeInt e enc i : err enc = Some e -> sticky e (EncodeInt enc i).
Proof. intros H. unfold EncodeInt. sticky_tac H. Qed.

Lemma sticky_EncodeArray_fn e enc T (s : list T) fn :
  err enc = Some e -> sticky e (EncodeArray_fn enc s fn).
Proof.
  intros H w. unfold EncodeArray_fn, bind.
  rewrite (sticky_WriteArrayHeader e enc _ H). reflexivity.
Qed.

Lemma sticky_EncodeMap e enc K V bk bv (m : list (K * V)) fn :
  err enc = Some e -> sticky e (EncodeMap bk bv enc m fn).
Proof.
  intros H w. unfold EncodeMap, bind.
  rewrite (sticky_WriteMapHeader e enc _ H). reflexivity.
Qed.

Lemma sticky_meets e m w :
  sticky e m -> fst (m w) = w /\ meets e ReturnsSticky (snd (m w)).
Proof. intros H. rewrite H. split; reflexivity. Qed.

Lemma sticky_invoke e enc c :
  err enc = Some e -> sticky_verdict c = ReturnsSticky -> sticky e (invoke enc c).
Proof.
  intros H Hv. destruct c; simpl in *;
    try solve [ apply sticky_Write; exact H
              | apply sticky_WriteArrayHeader; exact H
              | apply sticky_WriteMapHeader; exact H
              | apply sticky_WriteStringHeader; exact H
              | apply sticky_EncodeString; exact H
              | apply sticky_EncodeInt; exact H ].
  - (* Encode *)
    destruct v; simpl in *; try discriminate;
      try solve [ apply sticky_Write; exact H
                | apply sticky_EncodeString; exact H
                | apply sticky_EncodeInt; exact H
                | apply sticky_EncodeArray_fn; exact H ].
    + destruct b; apply sticky_Write; exact H.
    + unfold EncodeInt8; sticky_tac H.
    + unfold EncodeInt16; sticky_tac H.
    + unfold EncodeInt32; sticky_tac H.
    + unfold EncodeInt64; sticky_tac H.
    + unfold EncodeUint; sticky_tac H.
    + unfold EncodeUint8; sticky_tac H.
    + unfold EncodeUint16; sticky_tac H.
    + unfold EncodeUint32; sticky_tac H.
    + unfold EncodeUint64; sticky_tac H.
  - unfold EncodeBool; sticky_tac H.
  - unfold EncodeBytes; sticky_tac H.
  - unfold EncodeFloat32; sticky_tac H.
  - unfold EncodeFloat64; sticky_tac H.
  - unfold EncodeFixedInt.
    destruct ((i <? minFixedInt) || (i >? maxFixedInt)); try discriminate.
    apply sticky_Write; exact H.
  - unfold EncodeInt8; sticky_tac H.
  - unfold EncodeInt16; sticky_tac H.
  - unfold EncodeInt32; sticky_tac H.
  - unfold EncodeInt64; sticky_tac H.
  - unfold EncodeUint8; sticky_tac H.
  - unfold EncodeUint16; sticky_tac H.
  - unfold EncodeUint32; sticky_tac H.
  - unfold EncodeUint64; sticky_tac H.
  - unfold EncodeUint; sticky_tac H.
Qed.

Lemma pe_ret A (a : A) : preserves_encoders (ret a).
Proof. intros w; reflexivity. Qed.

Lemma pe_panic A v : preserves_encoders (@panic A v).
Proof. intros w; reflexivity. Qed.

Lemma pe_bind A B (m : M A) (k : A -> M B) :
  preserves_encoders m -> (forall a, preserves_encoders (k a)) ->
  preserves_encoders (bind m k).
Proof.
  intros Hm Hk w. unfold bind. specialize (Hm w).
  destruct (m w) as [w' [a|v]]; simpl in *.
  - rewrite Hk. exact Hm.
  - exact Hm.
Qed.

Lemma pe_io_Write o p : preserves_encoders (io_Write o p).
Proof.
  intros w. unfold io_Write.
  destruct (behaviour (writers w o) (requests (writers w o)) p); reflexivity.
Qed.

Lemma pe_Write enc b : preserves_encoders (Write enc b).
Proof.
  unfold Write. destruct (err enc); [apply pe_ret|].
  destruct b; try apply pe_panic;
    (unfold write_out; apply pe_bind; [apply pe_io_Write | intros; apply pe_ret]).
Qed.

Ltac pe_step :=
  first
    [ apply pe_Write
    | apply pe_ret
    | apply pe_panic
    | apply pe_io_Write
    | apply pe_bind; [ | intros ? ]
    | match goal with
      | |- preserves_encoders (if ?b then _ else _) => destruct b
      | |- preserves_encoders (match ?x with _ => _ end) => destruct x
      end ].

Ltac pe_tac := repeat pe_step.

Lemma pe_EncodeArray_range T (s : list T) fn :
  (forall enc v, preserves_encoders (fn enc v)) ->
  forall enc, preserves_encoders (EncodeArray_range enc s fn).
Proof.
  intros Hfn. induction s as [|v rest IH]; intros enc; simpl.
  - apply pe_ret.
  - destruct (err enc); [apply pe_ret|].
    apply pe_bind; [apply Hfn | intros e; apply IH].
Qed.

Lemma pe_EncodeMap_range K V (m : list (K * V)) fn :
  (forall enc k v, preserves_encoders (fn enc k v)) ->
  forall enc, preserves_encoders (EncodeMap_range enc m fn).
Proof.
  intros Hfn. induction m as [|[k v] rest IH]; intros enc; simpl.
  - apply pe_ret.
  - destruct (err enc); [apply pe_ret|].
    apply pe_bind; [apply Hfn | intros e; apply IH].
Qed.

Lemma pe_EncodeInt enc i : preserves_encoders (EncodeInt enc i).
Proof. unfold EncodeInt; pe_tac. Qed.

Lemma pe_EncodeArray_fn T enc (s : list T) fn :
  (forall enc v, preserves_encoders (fn enc v)) ->
  preserves_encoders (EncodeArray_fn enc s fn).
Proof.
  intros Hfn. unfold EncodeArray_fn, WriteArrayHeader.
  apply pe_bind; [pe_tac|].
  intros [e|]; [apply pe_ret|].
  apply pe_bind; [apply pe_EncodeArray_range; exact Hfn | intros; apply pe_ret].
Qed.

Lemma pe_Encode enc v : preserves_encoders (Encode enc v).
Proof.
  destruct v; simpl; try apply pe_panic; try apply pe_Write;
    try apply pe_EncodeInt.
  - destruct b; apply pe_Write.
  - unfold EncodeInt8; pe_tac.
  - unfold EncodeInt16; pe_tac.
  - unfold EncodeInt32; pe_tac.
  - unfold EncodeInt64; pe_tac.
  - unfold EncodeUint; pe_tac.
  - unfold EncodeUint8; pe_tac.
  - unfold EncodeUint16; pe_tac.
  - unfold EncodeUint32; pe_tac.
  - unfold EncodeUint64; pe_tac.
  - unfold EncodeString, WriteStringHeader; pe_tac.
  - apply pe_EncodeArray_fn. intros; apply pe_EncodeInt.
Qed.

Lemma pe_invoke enc c : preserves_encoders (invoke enc c).
Proof.
  destruct c; simpl; try apply pe_Write; try apply pe_Encode;
    try apply pe_EncodeInt.
  - unfold WriteArrayHeader; pe_tac.
  - unfold WriteMapHeader; pe_tac.
  - unfold WriteStringHeader; pe_tac.
  - unfold EncodeBool; pe_tac.
  - unfold EncodeBytes; pe_tac.
  - unfold EncodeFloat32; pe_tac.
  - unfold EncodeFloat64; pe_tac.
  - unfold EncodeString, WriteStringHeader; pe_tac.
  - unfold EncodeFixedInt; pe_tac.
  - unfold EncodeInt8; pe_tac.
  - unfold EncodeInt16; pe_tac.
  - unfold EncodeInt32; pe_tac.
  - unfold EncodeInt64; pe_tac.
  - unfold EncodeUint8; pe_tac.
  - unfold EncodeUint16; pe_tac.
  - unfold EncodeUint32; pe_tac.
  - unfold EncodeUint64; pe_tac.
  - unfold EncodeUint; pe_tac.
Qed.


(** ** The sticky state *)

(** C2, as amended: on an encoder whose err field is set, every encoding
    operation leaves the world as it found it (no request reaches any
    writer).  It returns the sticky error, except that EncodeFixedInt
    outside -32..127 panics with ErrValueOutOfRange and Encode of a value
    of an unsupported type panics with ErrUnsupportedType.  What Encode
    answers for a float32, a float64 or a []byte is not part of the
    statement. *)
Theorem sticky_encoder_writes_nothing (enc : Encoder) (e : error)
    (H : err enc = Some e) :
  (forall c w,
      fst (invoke enc c w) = w /\
      meets e (sticky_verdict c) (snd (invoke enc c w))) /\
  (forall T (box : T -> any) s fn, sticky e (EncodeArray box enc s fn)) /\
  (forall K V (bk : K -> any) (bv : V -> any) m fn,
      sticky e (EncodeMap bk bv enc m fn)).
Proof.
  split; [| split].
  - intros c w. destruct (sticky_verdict c) eqn:Hv.
    + apply sticky_meets. apply sticky_invoke; assumption.
    + destruct c; simpl in Hv; try discriminate.
      * destruct v; discriminate.
      * simpl. unfold EncodeFixedInt.
        destruct ((i <? minFixedInt) || (i >? maxFixedInt)); try discriminate.
        split; [reflexivity|]. eexists; split; reflexivity.
    + destruct c; simpl in Hv; try discriminate.
      * destruct v; try discriminate. simpl.
        split; [reflexivity|]. eexists; split; reflexivity.
      * destruct ((i <? minFixedInt) || (i >? maxFixedInt)); discriminate.
    + destruct c; simpl in Hv; try discriminate.
      * destruct v; try discriminate; simpl; split; exact I || reflexivity.
      * destruct ((i <? minFixedInt) || (i >? maxFixedInt)); discriminate.
  - intros. unfold EncodeArray. apply sticky_EncodeArray_fn; exact H.
  - intros. apply sticky_EncodeMap; exact H.
Qed.

Lemma sticky_encoder_writes_nothing_witness :
  let enc := mkEncoder 0 (Some (WriterError 1)) in
  err enc = Some (WriterError 1) /\
  fst (invoke enc (CallEncodeInt 1492) fresh_world) = fresh_world /\
  meets (WriterError 1) (sticky_verdict (CallEncodeInt 1492))
        (snd (invoke enc (CallEncodeInt 1492) fresh_world)).
Proof.
  split; [reflexivity|].
  apply (proj1 (sticky_encoder_writes_nothing
                  (mkEncoder 0 (Some (WriterError 1))) (WriterError 1)
                  eq_refl)).
Defined.

(** C2 as stated fails: in the sticky state EncodeFixedInt(-33) does not
    return the sticky error; the range check comes first and panics. *)
Lemma sticky_EncodeFixedInt_out_of_range_panics :
  ~ sticky (WriterError 1)
      (invoke (mkEncoder 0 (Some (WriterError 1))) (CallEncodeFixedInt (-33))).
Proof.
  intros Hs. specialize (Hs fresh_world). discriminate Hs.
Qed.

(** ** Value receivers *)

(** C10: a call of a value-receiver method on the encoder stored at [p]
    leaves every stored encoder as it was, whatever the writers answer;
    so do EncodeArray and EncodeMap, with the default item encoder or
    with one that itself leaves the stored encoders alone.  ResetError,
    SetWriter and Using are the operations that store into the fields. *)
Theorem value_receivers_leave_encoder_unchanged (p : nat) (w : World) :
  (forall c, encoders (fst (call_on p (fun enc => invoke enc c) w)) = encoders w) /\
  (forall T (box : T -> any) s fn,
      (forall f, fn = Some f -> forall enc v, preserves_encoders (f enc v)) ->
      encoders (fst (call_on p (fun enc => EncodeArray box enc s fn) w))
      = encoders w) /\
  (forall K V (bk : K -> any) (bv : V -> any) m fn,
      (forall f, fn = Some f -> forall enc k v, preserves_encoders (f enc k v)) ->
      encoders (fst (call_on p (fun enc => EncodeMap bk bv enc m fn) w))
      = encoders w) /\
  encoders (fst (ResetError p w)) p = with_err (encoders w p) None /\
  (forall o, encoders (fst (SetWriter p o w)) p = with_out (encoders w p) o) /\
  (forall dest fn w' e,
      fn (set_encoder p (with_out (encoders w p) dest) w) = (w', Returned e) ->
      err (encoders (fst (Using p dest fn w)) p) = e).
Proof.
  repeat split.
  - intros c. unfold call_on. apply pe_invoke.
  - intros T box s fn Hfn. unfold call_on, EncodeArray.
    apply pe_EncodeArray_fn. destruct fn as [f|].
    + apply (Hfn f eq_refl).
    + intros; apply pe_Encode.
  - intros K V bk bv m fn Hfn. unfold call_on, EncodeMap.
    apply pe_bind; [unfold WriteMapHeader; pe_tac|].
    intros [e|]; [apply pe_ret|].
    apply pe_bind; [| intros; apply pe_ret].
    apply pe_EncodeMap_range. destruct fn as [f|].
    + apply (Hfn f eq_refl).
    + intros. apply pe_bind; [apply pe_Encode | intros; apply pe_Encode].
  - simpl. unfold upd. rewrite Nat.eqb_refl. reflexivity.
  - intros o. simpl. unfold upd. rewrite Nat.eqb_refl. reflexivity.
  - intros dest fn w' e Hfn. unfold Using, defer, bind. rewrite Hfn.
    simpl. unfold upd. rewrite !Nat.eqb_refl. reflexivity.
Qed.

Lemma value_receivers_leave_encoder_unchanged_witness :
  encoders
    (fst (call_on 0 (fun enc =>
            EncodeArray VInt enc [1; 2]
              (Some (fun enc v => EncodeInt enc v)))
          (world_with (rejects_all (WriterError 1)))))
  = encoders (world_with (rejects_all (WriterError 1))).
Proof.
  apply (proj1 (proj2 (value_receivers_leave_encoder_unchanged
                         0 (world_with (rejects_all (WriterError 1)))))).
  intros f Hf enc v. injection Hf as <-. apply pe_EncodeInt.
Defined.

(** C1: a failed write is not retained by the caller's encoder.  The
    writer rejects the first request and accepts later ones.
    [enc.Write(byte(1))] returns the writer's error, yet the stored
    encoder still has a nil err; the next call, [enc.Write(byte(2))],
    reaches the writer again and returns nil. *)
Theorem Write_failure_is_not_retained :
  let w0 := world_with (rejects_first (WriterError 1)) in
  let first := call_on 0 (fun enc => Write enc (VUint8 1)) w0 in
  let second := call_on 0 (fun enc => Write enc (VUint8 2)) (fst first) in
  snd first = Returned (Some (WriterError 1)) /\
  err (encoders (fst first) 0) = None /\
  snd second = Returned None /\
  requests (writers (fst second) 0) = [[1]; [2]].
Proof. repeat split. Qed.

(** No encoding call enters the sticky state: whatever the call and
    whatever the writers answer, the stored encoder's err is what it was. *)
Lemma encoding_calls_never_set_err p c w :
  err (encoders (fst (call_on p (fun enc => invoke enc c) w)) p)
  = err (encoders w p).
Proof.
  unfold call_on. rewrite (pe_invoke (encoders w p) c w). reflexivity.
Qed.

(** The same for the deferred check the README recommends: after a failed
    [EncodeString] the following [Encode] is written out and
    [ResetError] reports no error. *)
Example README_deferred_check_misses_failure :
  let w0 := world_with (rejects_first (WriterError 1)) in
  let w1 := fst (call_on 0 (fun enc => EncodeString enc [0x69; 0x64]) w0) in
  let w2 := fst (call_on 0 (fun enc => Encode enc (VInt 7)) w1) in
  snd (ResetError 0 w2) = Returned None /\
  requests (writers w2 0) = [[0xa2]; [0x69; 0x64]; [0x07]].
Proof. repeat split. Qed.

(** C3: the array header is rejected by the writer, and EncodeArray goes
    on: WriteArrayHeader returns the err field of its own receiver, which
    no callee can set.  The item encoder is invoked for the item, its
    byte reaches the writer, and the call returns nil. *)
Theorem EncodeArray_continues_after_failed_header :
  let w0 := world_with (rejects_first (WriterError 1)) in
  let run := EncodeArray VInt (NewEncoder 0) [1]
               (Some (fun enc v => EncodeInt enc v)) w0 in
  snd (WriteArrayHeader (NewEncoder 0) 1 w0) = Returned None /\
  snd run = Returned None /\
  requests (writers (fst run) 0) = [[0x91]; [0x01]].
Proof. repeat split. Qed.

(** ** EncodeFixedInt *)

Lemma write_out_io_Write enc p w : write_out enc p w = io_Write (out enc) p w.
Proof.
  unfold write_out, bind, io_Write.
  destruct (behaviour (writers w (out enc)) (requests (writers w (out enc))) p);
    reflexivity.
Qed.

Lemma conv_byte_fixint i :
  minFixedInt <= i <= maxFixedInt -> conv_byte i = fixint_byte i.
Proof.
  unfold minFixedInt, maxFixedInt, conv_byte, to_unsigned, fixint_byte.
  intros Hi. change (2 ^ 8) with 256.
  destruct (0 <=? i) eqn:E.
  - apply Z.leb_le in E. apply Z.mod_small. lia.
  - apply Z.leb_gt in E. rewrite <- (Z.mod_add i 1 256) by lia.
    rewrite Z.mod_small; lia.
Qed.

Lemma decode_fixint_byte i :
  minFixedInt <= i <= maxFixedInt ->
  is_byte (fixint_byte i) /\ decode_fixint (fixint_byte i) = Some i.
Proof.
  unfold minFixedInt, maxFixedInt, fixint_byte, decode_fixint, is_byte.
  intros Hi. destruct (0 <=? i) eqn:E.
  - apply Z.leb_le in E. split; [lia|].
    replace ((0 <=? i) && (i <=? 127)) with true; [reflexivity|].
    symmetry. apply andb_true_iff. split; apply Z.leb_le; lia.
  - apply Z.leb_gt in E. split; [lia|].
    replace ((0 <=? 256 + i) && (256 + i <=? 127)) with false.
    + replace ((224 <=? 256 + i) && (256 + i <=? 255)) with true.
      * f_equal. lia.
      * symmetry. apply andb_true_iff. split; apply Z.leb_le; lia.
    + symmetry. apply andb_false_iff. right. apply Z.leb_gt. lia.
Qed.

(** C7: within -32..127 EncodeFixedInt is one Write of the single fixint
    byte of [i], and its result is that Write's result (on an encoder
    without error: one request, that byte, and the writer's answer).
    Outside the range the call panics with an error wrapping
    ErrValueOutOfRange; nothing is returned through the error result and
    the world is untouched. *)
Theorem EncodeFixedInt_contract (enc : Encoder) (i : Z) (w : World) :
  (minFixedInt <= i <= maxFixedInt ->
     EncodeFixedInt enc i w = Write enc (VUint8 (fixint_byte i)) w /\
     is_byte (fixint_byte i) /\
     decode_fixint (fixint_byte i) = Some i /\
     (err enc = None ->
        EncodeFixedInt enc i w = io_Write (out enc) [fixint_byte i] w)) /\
  (i < minFixedInt \/ maxFixedInt < i ->
     exists v,
       EncodeFixedInt enc i w = (w, Panicked v) /\
       errors_Is v ErrValueOutOfRange = true /\
       errors_Is v ErrUnsupportedType = false /\
       forall code, errors_Is v (WriterError code) = false).
Proof.
  split.
  - intros Hi.
    assert (Hrun : EncodeFixedInt enc i w = Write enc (VUint8 (fixint_byte i)) w).
    { unfold EncodeFixedInt.
      replace ((i <? minFixedInt) || (i >? maxFixedInt)) with false.
      - rewrite (conv_byte_fixint i Hi). reflexivity.
      - symmetry. apply orb_false_iff. split.
        + apply Z.ltb_ge. lia.
        + rewrite Z.gtb_ltb. apply Z.ltb_ge. lia. }
    destruct (decode_fixint_byte i Hi) as [Hb Hd].
    repeat split; try assumption; try apply Hb.
    intros He. rewrite Hrun. unfold Write. rewrite He.
    apply write_out_io_Write.
  - intros Hi. exists (Errorf "EncodeFixedInt" ErrValueOutOfRange).
    unfold EncodeFixedInt.
    replace ((i <? minFixedInt) || (i >? maxFixedInt)) with true.
    + repeat split.
    + symmetry. apply orb_true_iff. destruct Hi as [Hi|Hi].
      * left. apply Z.ltb_lt. exact Hi.
      * right. rewrite Z.gtb_ltb. apply Z.ltb_lt. exact Hi.
Qed.

Lemma EncodeFixedInt_contract_witness :
  (minFixedInt <= -32 <= maxFixedInt /\
   EncodeFixedInt (NewEncoder 0) (-32) fresh_world
   = io_Write 0 [0xe0] fresh_world) /\
  ((128 < minFixedInt \/ maxFixedInt < 128) /\
   exists v,
     EncodeFixedInt (NewEncoder 0) 128 fresh_world = (fresh_world, Panicked v) /\
     errors_Is v ErrValueOutOfRange = true /\
     errors_Is v ErrUnsupportedType = false /\
     forall code, errors_Is v (WriterError code) = false).
Proof.
  split.
  - assert (Hr : minFixedInt <= -32 <= maxFixedInt)
      by (unfold minFixedInt, maxFixedInt; lia).
    split; [exact Hr|].
    apply (proj1 (EncodeFixedInt_contract (NewEncoder 0) (-32) fresh_world) Hr).
    reflexivity.
  - assert (Hr : 128 < minFixedInt \/ maxFixedInt < 128)
      by (right; unfold maxFixedInt; lia).
    split; [exact Hr|].
    apply (proj2 (EncodeFixedInt_contract (NewEncoder 0) 128 fresh_world) Hr).
Defined.

(** ** Encode *)

(** C8: Encode has no case for float32 or float64; whatever the encoder
    and the bit pattern, the call panics with an error wrapping
    ErrUnsupportedType and nothing is written, while EncodeFloat32 on
    the same value writes 0xca and the four bytes.  The value is
    float32(3.1415927) of the test suite. *)
Theorem Encode_float_is_unsupported :
  (forall enc bits w,
      Encode enc (VFloat32 bits) w
      = (w, Panicked (Errorf "Encode" ErrUnsupportedType)) /\
      Encode enc (VFloat64 bits) w
      = (w, Panicked (Errorf "Encode" ErrUnsupportedType))) /\
  result (Encode (NewEncoder 0) (VFloat32 0x40490fdb))
  = Panicked (Errorf "Encode" ErrUnsupportedType) /\
  written (Encode (NewEncoder 0) (VFloat32 0x40490fdb)) = [] /\
  written (EncodeFloat32 (NewEncoder 0) 0x40490fdb)
  = [0xca; 0x40; 0x49; 0x0f; 0xdb].
Proof. repeat split. Qed.

(** ** Using *)

(** C9: whatever [fn] does, when Using is left the encoder's [out] is
    the writer it had on entry; [fn] ran with [out] set to [dest]; if
    [fn] returned [e] then Using returns [e] and the encoder's err is
    [e]; if [fn] panicked the panic goes on after the writer is put
    back.  Nothing else of what [fn] left is touched. *)
Theorem Using_restores_writer (p dest : nat) (fn : M (option error)) (w : World) :
  let entered := set_encoder p (with_out (encoders w p) dest) w in
  let left := fst (Using p dest fn w) in
  out (encoders entered p) = dest /\
  out (encoders left p) = out (encoders w p) /\
  writers left = writers (fst (fn entered)) /\
  (forall q, q <> p -> encoders left q = encoders (fst (fn entered)) q) /\
  match snd (fn entered) with
  | Returned e =>
    snd (Using p dest fn w) = Returned e /\ err (encoders left p) = e
  | Panicked v =>
    snd (Using p dest fn w) = Panicked v /\
    err (encoders left p) = err (encoders (fst (fn entered)) p)
  end.
Proof.
  simpl. unfold Using, defer, bind.
  destruct (fn (set_encoder p (with_out (encoders w p) dest) w))
    as [w2 [e|v]] eqn:Hfn; simpl; unfold upd; rewrite ?Nat.eqb_refl; simpl.
  - repeat split.
    intros q Hq. apply Nat.eqb_neq in Hq. rewrite Hq. reflexivity.
  - repeat split.
    intros q Hq. apply Nat.eqb_neq in Hq. rewrite Hq. reflexivity.
Qed.

(** The test suite's Using case: Encode(1492) inside the scope goes to
    the other buffer, the error is returned and retained, the original
    buffer stays empty and is the encoder's writer again. *)
Example Using_test_case :
  let fn := _ = call_on 0 (fun enc => Encode enc (VInt 1492)) ;;
            ret (Some (WriterError 7)) in
  let run := Using 0 1 fn fresh_world in
  snd run = Returned (Some (WriterError 7)) /\
  encoders (fst run) 0%nat = mkEncoder 0 (Some (WriterError 7)) /\
  contents (fst run) 0 = [] /\
  contents (fst run) 1 = [typeUint8; 0x05; 0xd4].
Proof. repeat split. Qed.

(** The test suite's cases for an error that occurs while the items are
    written. *)
Example EncodeArray_test_case :
  let fn := fun enc v =>
              if v >? 1 then ret (Some (WriterError 7)) else Encode enc (VInt v) in
  let m := EncodeArray VInt (NewEncoder 0) [1; 2; 3] (Some fn) in
  result m = Returned (Some (WriterError 7)) /\ written m = [0x93; 0x01].
Proof. repeat split. Qed.

Example EncodeMap_test_case :
  let fn := fun enc k v =>
              _ = Encode enc (VInt k) ;;
              _ = Encode enc (VInt v) ;;
              ret (Some (WriterError 7)) in
  let m := EncodeMap VInt VInt (NewEncoder 0) [(1, 1); (2, 2); (3, 3)] (Some fn) in
  result m = Returned (Some (WriterError 7)) /\ written m = [0x83; 0x01; 0x01].
Proof. repeat split. Qed.

(** ** Any encoder on any accepting writer *)

Lemma io_Write_accepted o p w :
  accepts_all (writers w o) ->
  io_Write o p w
  = (mkWorld (upd (writers w) o
                  (mkWriter (behaviour (writers w o))
                            (requests (writers w o) ++ [p])))
             (encoders w),
     Returned None).
Proof.
  intros Hacc. unfold io_Write. cbv zeta. rewrite Hacc. reflexivity.
Qed.

Lemma appends_io_Write o p : appends (io_Write o p) o p.
Proof.
  intros w Hacc. rewrite (io_Write_accepted o p w Hacc).
  cbn [fst snd writers]. split; [reflexivity|].
  split; [|split].
  - unfold upd. rewrite Nat.eqb_refl. exact Hacc.
  - unfold contents. cbn [writers]. unfold upd. rewrite Nat.eqb_refl.
    cbn [requests]. rewrite concat_app. simpl. rewrite app_nil_r. reflexivity.
  - intros o' Ho. unfold upd. apply Nat.eqb_neq in Ho. rewrite Ho. reflexivity.
Qed.

Lemma appends_Write enc b p :
  err enc = None -> wire b = Some p -> appends (Write enc b) (out enc) p.
Proof.
  intros He Hw w Hacc.
  assert (Hrun : Write enc b w = io_Write (out enc) p w).
  { unfold Write. rewrite He.
    destruct b; simpl in Hw; try discriminate Hw; injection Hw as <-;
      apply write_out_io_Write. }
  rewrite Hrun. apply appends_io_Write. exact Hacc.
Qed.

Lemma appends_ret o : appends (ret None) o [].
Proof.
  intros w Hacc. simpl. repeat split; try assumption.
  rewrite app_nil_r. reflexivity.
Qed.

Lemma appends_bind (m : M (option error)) (k : option error -> M (option error))
    o b1 b2 :
  appends m o b1 -> (forall a, appends (k a) o b2) ->
  appends (bind m k) o (b1 ++ b2).
Proof.
  intros Hm Hk w Hacc. unfold bind.
  destruct (Hm w Hacc) as (Hr & Ha & Hc & Ho).
  destruct (m w) as [w1 r1]. simpl in *. subst r1.
  destruct (Hk None w1 Ha) as (Hr2 & Ha2 & Hc2 & Ho2).
  repeat split; try assumption.
  - rewrite Hc2, Hc. symmetry. apply app_assoc.
  - intros o' Hne. rewrite Ho2, Ho by assumption. reflexivity.
Qed.

Lemma appends_tagged enc t b p :
  err enc = None -> wire b = Some p ->
  appends (_ = Write enc (VUint8 t) ;; Write enc b) (out enc) (t :: p).
Proof.
  intros He Hw. change (t :: p) with ([t] ++ p).
  apply appends_bind; [|intros _]; apply appends_Write; auto.
Qed.

Ltac fresh_run_rhs :=
  match goal with
  | |- appends _ _ ?b =>
    let b' := eval cbv beta iota zeta delta
      [written result contents fresh_world buffer NewEncoder bind ret panic
       Write write_out io_Write err out with_err writers requests behaviour
       encoders upd fst snd List.concat List.app Nat.eqb] in b in
    change b with b'
  end.

Ltac appends_leaf He :=
  first [ apply appends_tagged; [exact He | reflexivity]
        | apply appends_Write; [exact He | reflexivity] ].

Lemma encode_as_appends t enc i :
  err enc = None ->
  appends (encode_as t enc i) (out enc) (written (encode_as t (NewEncoder 0) i)).
Proof.
  intros He.
  destruct t; unfold encode_as, EncodeInt8, EncodeInt16, EncodeInt32,
    EncodeInt64, EncodeInt, EncodeUint8, EncodeUint16, EncodeUint32,
    EncodeUint64, EncodeUint.
  all: repeat match goal with
              | |- context [if ?c then _ else _] => destruct c
              end.
  all: fresh_run_rhs; appends_leaf He.
Qed.

Lemma appends_then_ret (m : M (option error)) o bs :
  appends m o bs -> appends (_ = m ;; ret None) o bs.
Proof.
  intros Hm. rewrite <- (app_nil_r bs).
  apply appends_bind; [exact Hm | intros _; apply appends_ret].
Qed.

Ltac header_appends He :=
  rewrite He;
  repeat match goal with
         | |- context [if ?c then _ else _] => destruct c
         end;
  fresh_run_rhs; apply appends_then_ret; appends_leaf He.

Lemma WriteArrayHeader_appends enc n :
  err enc = None ->
  appends (WriteArrayHeader enc n) (out enc)
          (written (WriteArrayHeader (NewEncoder 0) n)).
Proof. intros He. unfold WriteArrayHeader. header_appends He. Qed.

Lemma WriteMapHeader_appends enc n :
  err enc = None ->
  appends (WriteMapHeader enc n) (out enc)
          (written (WriteMapHeader (NewEncoder 0) n)).
Proof. intros He. unfold WriteMapHeader. header_appends He. Qed.

Lemma WriteStringHeader_appends enc n :
  err enc = None ->
  appends (WriteStringHeader enc n) (out enc)
          (written (WriteStringHeader (NewEncoder 0) n)).
Proof. intros He. unfold WriteStringHeader. header_appends He. Qed.

(** ** Bytes on the wire *)

Lemma to_unsigned_small bits v :
  0 <= v < 2 ^ bits -> to_unsigned bits v = v.
Proof. intros H. unfold to_unsigned. apply Z.mod_small. exact H. Qed.

Lemma be16_small v :
  0 <= v < 65536 -> be16 v = [v / 256; v mod 256].
Proof.
  intros H. unfold be16, conv_byte, to_unsigned.
  rewrite Z.shiftr_div_pow2 by lia.
  change (2 ^ 8) with 256.
  rewrite (Z.mod_small (v / 256)); [reflexivity|].
  split; [apply Z.div_pos; lia | apply Z.div_lt_upper_bound; lia].
Qed.

Lemma be32_small v :
  0 <= v < 4294967296 ->
  be32 v = [v / 16777216; v / 65536 mod 256; v / 256 mod 256; v mod 256].
Proof.
  intros H. unfold be32, conv_byte, to_unsigned.
  rewrite !Z.shiftr_div_pow2 by lia.
  change (2 ^ 8) with 256. change (2 ^ 16) with 65536.
  change (2 ^ 24) with 16777216.
  rewrite (Z.mod_small (v / 16777216)); [reflexivity|].
  split; [apply Z.div_pos; lia | apply Z.div_lt_upper_bound; lia].
Qed.

Lemma be_value_2 v : 0 <= v -> be_value [v / 256; v mod 256] = v.
Proof.
  intros H. unfold be_value. simpl.
  pose proof (Z.div_mod v 256). lia.
Qed.

Lemma be_value_4 v :
  0 <= v ->
  be_value [v / 16777216; v / 65536 mod 256; v / 256 mod 256; v mod 256] = v.
Proof.
  intros H. unfold be_value. simpl.
  Z.div_mod_to_equations. lia.
Qed.

(** A property checked for each of the first [k] naturals holds below [k]. *)
Lemma below_by_check (f : Z -> bool) (k : nat) :
  forallb f (map Z.of_nat (seq 0 k)) = true ->
  forall n, 0 <= n < Z.of_nat k -> f n = true.
Proof.
  intros Hall n Hn. rewrite forallb_forall in Hall. apply Hall.
  apply in_map_iff. exists (Z.to_nat n). split; [lia|].
  apply in_seq. lia.
Qed.

Lemma fix_tag_lor mask n :
  (mask = 0x80 \/ mask = 0x90 \/ mask = 0xa0) -> 0 <= n < 32 ->
  (mask = 0xa0 \/ n < 16) ->
  Z.lor mask (conv_byte n) = mask + n /\
  Z.land (mask + n) (if mask =? 0xa0 then 0x1f else 0x0f) = n.
Proof.
  intros Hm Hn Hlim.
  assert (Hb : forall m k, 0 <= n < Z.of_nat k ->
             forallb (fun n => (Z.lor m (conv_byte n) =? m + n) &&
                               (Z.land (m + n) (if m =? 0xa0 then 0x1f else 0x0f) =? n))
                     (map Z.of_nat (seq 0 k)) = true ->
             Z.lor m (conv_byte n) = m + n /\
             Z.land (m + n) (if m =? 0xa0 then 0x1f else 0x0f) = n).
  { intros m k Hk Hall.
    pose proof (below_by_check _ k Hall n Hk) as Hc.
    apply andb_true_iff in Hc. destruct Hc as [H1 H2].
    split; apply Z.eqb_eq; assumption. }
  destruct Hm as [ -> | [ -> | -> ] ].
  - apply (Hb _ 16%nat); [lia | vm_compute; reflexivity].
  - apply (Hb _ 16%nat); [lia | vm_compute; reflexivity].
  - apply (Hb _ 32%nat); [lia | vm_compute; reflexivity].
Qed.

Ltac leb_cases :=
  repeat match goal with
         | |- context [?a <=? ?b] =>
           let E := fresh "E" in
           destruct (a <=? b) eqn:E;
           [apply Z.leb_le in E | apply Z.leb_gt in E]; try lia
         | |- context [?a <? ?b] =>
           let E := fresh "E" in
           destruct (a <? b) eqn:E;
           [apply Z.ltb_lt in E | apply Z.ltb_ge in E]; try lia
         | |- context [?a =? ?b] =>
           let E := fresh "E" in
           destruct (a =? b) eqn:E;
           [apply Z.eqb_eq in E | apply Z.eqb_neq in E]; try lia
         end.

Lemma WriteArrayHeader_written n :
  0 <= n <= MaxUint32 ->
  written (WriteArrayHeader (NewEncoder 0) n) = array_header n /\
  result (WriteArrayHeader (NewEncoder 0) n) = Returned None.
Proof.
  unfold MaxUint32. intros Hn.
  unfold written, result, WriteArrayHeader, array_header. leb_cases.
  - subst n. split; reflexivity.
  - destruct (fix_tag_lor maskFixArray n) as [Hl _];
      [right; left; reflexivity | lia | right; lia |].
    split; [|reflexivity].
    change (contents _ _) with [Z.lor maskFixArray (conv_byte n)].
    rewrite Hl. reflexivity.
  - split; [|reflexivity].
    change (contents _ _) with ([typeArray16] ++ be16 (conv_uint16 n)).
    unfold conv_uint16. rewrite to_unsigned_small by (simpl; lia).
    rewrite be16_small by lia. reflexivity.
  - split; [|reflexivity].
    change (contents _ _) with ([typeArray32] ++ be32 (conv_uint32 n)).
    unfold conv_uint32. rewrite to_unsigned_small by (simpl; lia).
    rewrite be32_small by lia. reflexivity.
Qed.

Lemma WriteMapHeader_written n :
  0 <= n <= MaxUint32 ->
  written (WriteMapHeader (NewEncoder 0) n) = map_header n /\
  result (WriteMapHeader (NewEncoder 0) n) = Returned None.
Proof.
  unfold MaxUint32. intros Hn.
  unfold written, result, WriteMapHeader, map_header. leb_cases.
  - subst n. split; reflexivity.
  - destruct (fix_tag_lor maskFixMap n) as [Hl _];
      [left; reflexivity | lia | right; lia |].
    split; [|reflexivity].
    change (contents _ _) with [Z.lor maskFixMap (conv_byte n)].
    rewrite Hl. reflexivity.
  - split; [|reflexivity].
    change (contents _ _) with ([typeMap16] ++ be16 (conv_uint16 n)).
    unfold conv_uint16. rewrite to_unsigned_small by (simpl; lia).
    rewrite be16_small by lia. reflexivity.
  - split; [|reflexivity].
    change (contents _ _) with ([typeMap32] ++ be32 (conv_uint32 n)).
    unfold conv_uint32. rewrite to_unsigned_small by (simpl; lia).
    rewrite be32_small by lia. reflexivity.
Qed.

Lemma WriteStringHeader_written n :
  0 <= n <= MaxUint32 ->
  written (WriteStringHeader (NewEncoder 0) n) = string_header n /\
  result (WriteStringHeader (NewEncoder 0) n) = Returned None.
Proof.
  unfold MaxUint32. intros Hn.
  unfold written, result, WriteStringHeader, string_header. leb_cases.
  - destruct (fix_tag_lor maskFixString n) as [Hl _];
      [right; right; reflexivity | lia | left; reflexivity |].
    split; [|reflexivity].
    change (contents _ _) with [Z.lor maskFixString (conv_byte n)].
    rewrite Hl. reflexivity.
  - split; [|reflexivity].
    change (contents _ _) with [typeString8; conv_byte n].
    unfold conv_byte. rewrite to_unsigned_small by (simpl; lia). reflexivity.
  - split; [|reflexivity].
    change (contents _ _) with ([typeString16] ++ be16 (conv_uint16 n)).
    unfold conv_uint16. rewrite to_unsigned_small by (simpl; lia).
    rewrite be16_small by lia. reflexivity.
  - split; [|reflexivity].
    change (contents _ _) with ([typeString32] ++ be32 (conv_uint32 n)).
    unfold conv_uint32. rewrite to_unsigned_small by (simpl; lia).
    rewrite be32_small by lia. reflexivity.
Qed.

Lemma decode_array_header_table n :
  0 <= n -> decode_array_header (array_header n) = Some n.
Proof.
  intros Hn. unfold array_header. leb_cases.
  - destruct (fix_tag_lor 0x90 n) as [_ Hd];
      [right; left; reflexivity | lia | right; lia |].
    unfold decode_array_header.
    change (0x90 =? 0xa0) with false in Hd. cbv iota in Hd. rewrite Hd.
    leb_cases. reflexivity.
  - unfold decode_array_header. rewrite Z.eqb_refl, be_value_2 by lia.
    reflexivity.
  - unfold decode_array_header. rewrite Z.eqb_refl, be_value_4 by lia.
    reflexivity.
Qed.

Lemma decode_map_header_table n :
  0 <= n -> decode_map_header (map_header n) = Some n.
Proof.
  intros Hn. unfold map_header. leb_cases.
  - destruct (fix_tag_lor 0x80 n) as [_ Hd];
      [left; reflexivity | lia | right; lia |].
    unfold decode_map_header.
    change (0x80 =? 0xa0) with false in Hd. cbv iota in Hd. rewrite Hd.
    leb_cases. reflexivity.
  - unfold decode_map_header. rewrite Z.eqb_refl, be_value_2 by lia.
    reflexivity.
  - unfold decode_map_header. rewrite Z.eqb_refl, be_value_4 by lia.
    reflexivity.
Qed.

Lemma decode_string_header_table n :
  0 <= n -> decode_string_header (string_header n) = Some n.
Proof.
  intros Hn. unfold string_header. leb_cases.
  - destruct (fix_tag_lor 0xa0 n) as [_ Hd];
      [right; right; reflexivity | lia | left; reflexivity |].
    unfold decode_string_header.
    change (0xa0 =? 0xa0) with true in Hd. cbv iota in Hd. rewrite Hd.
    leb_cases. reflexivity.
  - reflexivity.
  - unfold decode_string_header. rewrite Z.eqb_refl, be_value_2 by lia.
    reflexivity.
  - unfold decode_string_header. rewrite Z.eqb_refl, be_value_4 by lia.
    reflexivity.
Qed.

(** C5, as amended: for every count [n] from 0 to 4294967295 the bytes
    written by WriteArrayHeader, WriteMapHeader and WriteStringHeader are
    those of the tier table, and reading the tag and length bytes back
    gives [n].  This holds on the fresh buffer of the tests and, for any
    encoder without error, on any writer that accepts what it is sent:
    the call returns nil and the writer holds the header in addition. *)
Theorem headers_follow_tier_table (n : Z) (Hn : 0 <= n <= MaxUint32) :
  (written (WriteArrayHeader (NewEncoder 0) n) = array_header n /\
   result (WriteArrayHeader (NewEncoder 0) n) = Returned None /\
   header_reads_back WriteArrayHeader decode_array_header n /\
   forall enc, err enc = None ->
     appends (WriteArrayHeader enc n) (out enc) (array_header n)) /\
  (written (WriteMapHeader (NewEncoder 0) n) = map_header n /\
   result (WriteMapHeader (NewEncoder 0) n) = Returned None /\
   header_reads_back WriteMapHeader decode_map_header n /\
   forall enc, err enc = None ->
     appends (WriteMapHeader enc n) (out enc) (map_header n)) /\
  (written (WriteStringHeader (NewEncoder 0) n) = string_header n /\
   result (WriteStringHeader (NewEncoder 0) n) = Returned None /\
   header_reads_back WriteStringHeader decode_string_header n /\
   forall enc, err enc = None ->
     appends (WriteStringHeader enc n) (out enc) (string_header n)).
Proof.
  unfold header_reads_back.
  destruct (WriteArrayHeader_written n Hn) as [Ha Ra].
  destruct (WriteMapHeader_written n Hn) as [Hm Rm].
  destruct (WriteStringHeader_written n Hn) as [Hs Rs].
  split; [|split].
  - split; [exact Ha|]. split; [exact Ra|]. split.
    + rewrite Ha. apply decode_array_header_table; lia.
    + intros enc He. rewrite <- Ha. apply WriteArrayHeader_appends; exact He.
  - split; [exact Hm|]. split; [exact Rm|]. split.
    + rewrite Hm. apply decode_map_header_table; lia.
    + intros enc He. rewrite <- Hm. apply WriteMapHeader_appends; exact He.
  - split; [exact Hs|]. split; [exact Rs|]. split.
    + rewrite Hs. apply decode_string_header_table; lia.
    + intros enc He. rewrite <- Hs. apply WriteStringHeader_appends; exact He.
Qed.

Lemma headers_follow_tier_table_witness :
  0 <= 65536 <= MaxUint32 /\
  written (WriteArrayHeader (NewEncoder 0) 65536) = array_header 65536 /\
  result (WriteArrayHeader (NewEncoder 0) 65536) = Returned None /\
  header_reads_back WriteArrayHeader decode_array_header 65536.
Proof.
  assert (Hr : 0 <= 65536 <= MaxUint32) by (unfold MaxUint32; lia).
  split; [exact Hr|].
  destruct (proj1 (headers_follow_tier_table 65536 Hr)) as (Hw & Hres & Hb & _).
  split; [exact Hw|]. split; [exact Hres | exact Hb].
Defined.

(** C5 as stated fails for counts that do not fit 32 bits: the count is
    converted with [uint32(len)], so a header written for 4294967296
    carries the count 0. *)
Lemma header_4294967296_reads_back_0 :
  written (WriteArrayHeader (NewEncoder 0) 4294967296) = [0xdd; 0; 0; 0; 0] /\
  ~ header_reads_back WriteArrayHeader decode_array_header 4294967296 /\
  ~ header_reads_back WriteMapHeader decode_map_header 4294967296 /\
  ~ header_reads_back WriteStringHeader decode_string_header 4294967296.
Proof.
  split; [reflexivity|].
  repeat split; intros H; vm_compute in H; discriminate H.
Qed.

(** The boundary counts of the tiers. *)
Example header_boundaries :
  map (fun n => written (WriteArrayHeader (NewEncoder 0) n))
      [0; 15; 16; 65535; 65536]
  = [[0x90]; [0x9f]; [0xdc; 0x00; 0x10]; [0xdc; 0xff; 0xff];
     [0xdd; 0x00; 0x01; 0x00; 0x00]] /\
  map (fun n => written (WriteMapHeader (NewEncoder 0) n))
      [0; 15; 16; 65535; 65536]
  = [[0x80]; [0x8f]; [0xde; 0x00; 0x10]; [0xde; 0xff; 0xff];
     [0xdf; 0x00; 0x01; 0x00; 0x00]] /\
  map (fun n => written (WriteStringHeader (NewEncoder 0) n))
      [0; 31; 32; 255; 256; 65535; 65536]
  = [[0xa0]; [0xbf]; [0xd9; 0x20]; [0xd9; 0xff]; [0xda; 0x01; 0x00];
     [0xda; 0xff; 0xff]; [0xdb; 0x00; 0x01; 0x00; 0x00]].
Proof. repeat split. Qed.

(** ** The integer family *)

(** C4: in the uint16 tier the tag byte written is 0xcc, the tag of the
    uint8 tier, not 0xcd: [typeUint16] is declared with the value of
    [typeUint8], and [typeUint32], [typeUint64] are 0xcd, 0xce.  At 256
    each of the five encoders writes 0xcc 0x01 0x00. *)
Theorem uint16_tier_is_tagged_0xcc :
  typeUint16 = 0xcc /\ typeUint16 = typeUint8 /\
  typeUint32 = 0xcd /\ typeUint64 = 0xce /\
  written (EncodeUint16 (NewEncoder 0) 256) = [0xcc; 0x01; 0x00] /\
  written (EncodeUint32 (NewEncoder 0) 256) = [0xcc; 0x01; 0x00] /\
  written (EncodeUint64 (NewEncoder 0) 256) = [0xcc; 0x01; 0x00] /\
  written (EncodeUint (NewEncoder 0) 256) = [0xcc; 0x01; 0x00] /\
  written (EncodeInt (NewEncoder 0) 256) = [0xcc; 0x01; 0x00] /\
  written (EncodeUint16 (NewEncoder 0) 65535) = [0xcc; 0xff; 0xff] /\
  msgpack_decode_int [0xcd; 0x01; 0x00] = Some 256 /\
  msgpack_decode_int (written (EncodeUint16 (NewEncoder 0) 256)) = None.
Proof. repeat split. Qed.

Lemma be_value_from acc bs :
  0 <= acc -> Forall is_byte bs ->
  0 <= fold_left (fun a b => a * 256 + b) bs acc < (acc + 1) * 256 ^ len bs.
Proof.
  intros Hacc Hbs. revert acc Hacc.
  induction Hbs as [|b bs Hb Hbs IH]; intros acc Hacc.
  - simpl. lia.
  - simpl fold_left. unfold is_byte in Hb.
    specialize (IH (acc * 256 + b) ltac:(lia)).
    unfold len in *. simpl List.length. rewrite Nat2Z.inj_succ, Z.pow_succ_r by lia.
    assert (0 < 256 ^ Z.of_nat (List.length bs)) by (apply Z.pow_pos_nonneg; lia).
    nia.
Qed.

Lemma be_value_bound bs :
  Forall is_byte bs -> 0 <= be_value bs < 256 ^ len bs.
Proof.
  intros H. pose proof (be_value_from 0 bs ltac:(lia) H). unfold be_value. lia.
Qed.

Lemma to_signed_range bits z :
  0 < bits -> - 2 ^ (bits - 1) <= to_signed bits z < 2 ^ (bits - 1).
Proof.
  intros Hb. unfold to_signed.
  assert (Hp : 2 ^ bits = 2 * 2 ^ (bits - 1)).
  { replace bits with (Z.succ (bits - 1)) at 1 by lia.
    apply Z.pow_succ_r. lia. }
  assert (0 < 2 ^ (bits - 1)) by (apply Z.pow_pos_nonneg; lia).
  pose proof (Z.mod_pos_bound (z + 2 ^ (bits - 1)) (2 ^ bits) ltac:(lia)).
  lia.
Qed.

Lemma msgpack_int_size_max i : msgpack_int_size i <= 9.
Proof. unfold msgpack_int_size. leb_cases; simpl; lia. Qed.

(** No integer form that reads as [i] is shorter than [msgpack_int_size i]. *)
Lemma msgpack_int_size_least bs i :
  Forall is_byte bs -> msgpack_decode_int bs = Some i ->
  msgpack_int_size i <= len bs.
Proof.
  intros Hbs Hd. destruct bs as [|t payload]; [discriminate|].
  destruct payload as [|a rest].
  - simpl in Hd. unfold decode_fixint in Hd.
    destruct ((0 <=? t) && (t <=? 127)) eqn:E1.
    + injection Hd as <-. apply andb_true_iff in E1. destruct E1 as [A B].
      apply Z.leb_le in A, B. unfold msgpack_int_size.
      replace ((-32 <=? t) && (t <=? 127)) with true; [reflexivity|].
      symmetry. apply andb_true_iff. split; apply Z.leb_le; lia.
    + destruct ((224 <=? t) && (t <=? 255)) eqn:E2; [|discriminate].
      injection Hd as <-. apply andb_true_iff in E2. destruct E2 as [A B].
      apply Z.leb_le in A, B. unfold msgpack_int_size.
      replace ((-32 <=? t - 256) && (t - 256 <=? 127)) with true; [reflexivity|].
      symmetry. apply andb_true_iff. split; apply Z.leb_le; lia.
  - inversion Hbs as [|? ? _ Hp]; subst.
    pose proof (be_value_bound _ Hp) as Hv.
    pose proof (msgpack_int_size_max i) as Hmax.
    change (msgpack_decode_int (t :: a :: rest))
      with (decode_tagged_int t (a :: rest)) in Hd.
    assert (Hlen : len (t :: a :: rest) = 1 + len (a :: rest)).
    { unfold len. simpl List.length. lia. }
    rewrite Hlen. clear Hlen.
    unfold decode_tagged_int in Hd. cbv zeta in Hd.
    set (n := len (a :: rest)) in *. set (v := be_value (a :: rest)) in *.
    repeat match type of Hd with
           | (if ?c then _ else _) = _ =>
             let E := fresh "E" in
             destruct c eqn:E; [apply Z.eqb_eq in E|]
           end; try discriminate; injection Hd as <-.
    + rewrite E0 in *. unfold msgpack_int_size. change (256 ^ 1) with 256 in Hv.
      leb_cases; simpl; lia.
    + rewrite E1 in *. unfold msgpack_int_size. change (256 ^ 2) with 65536 in Hv.
      leb_cases; simpl; lia.
    + rewrite E2 in *. unfold msgpack_int_size.
      change (256 ^ 4) with 4294967296 in Hv.
      leb_cases; simpl; lia.
    + rewrite E3 in *. lia.
    + rewrite E4 in *. pose proof (to_signed_range 8 v ltac:(lia)) as Hs.
      change (2 ^ (8 - 1)) with 128 in Hs.
      unfold msgpack_int_size. leb_cases; simpl; lia.
    + rewrite E5 in *. pose proof (to_signed_range 16 v ltac:(lia)) as Hs.
      change (2 ^ (16 - 1)) with 32768 in Hs.
      unfold msgpack_int_size. leb_cases; simpl; lia.
    + rewrite E6 in *. pose proof (to_signed_range 32 v ltac:(lia)) as Hs.
      change (2 ^ (32 - 1)) with 2147483648 in Hs.
      unfold msgpack_int_size. leb_cases; simpl; lia.
    + rewrite E7 in *. lia.
Qed.

Lemma be_value_be16 v : be_value (be16 v) = v mod 2 ^ 16.
Proof.
  unfold be16, conv_byte, to_unsigned, be_value.
  rewrite !Z.shiftr_div_pow2 by lia. simpl fold_left.
  change (2 ^ 8) with 256. change (2 ^ 16) with 65536.
  Z.div_mod_to_equations. lia.
Qed.

Lemma be_value_be32 v : be_value (be32 v) = v mod 2 ^ 32.
Proof.
  unfold be32, conv_byte, to_unsigned, be_value.
  rewrite !Z.shiftr_div_pow2 by lia. simpl fold_left.
  change (2 ^ 8) with 256. change (2 ^ 16) with 65536.
  change (2 ^ 24) with 16777216. change (2 ^ 32) with 4294967296.
  Z.div_mod_to_equations. lia.
Qed.

Lemma be_value_be64 v : be_value (be64 v) = v mod 2 ^ 64.
Proof.
  unfold be64, conv_byte, to_unsigned, be_value.
  rewrite !Z.shiftr_div_pow2 by lia. simpl fold_left.
  change (2 ^ 8) with 256. change (2 ^ 16) with 65536.
  change (2 ^ 24) with 16777216. change (2 ^ 32) with 4294967296.
  change (2 ^ 40) with 1099511627776. change (2 ^ 48) with 281474976710656.
  change (2 ^ 56) with 72057594037927936.
  change (2 ^ 64) with 18446744073709551616.
  Z.div_mod_to_equations. lia.
Qed.

Lemma be_value_byte v : be_value [conv_byte v] = v mod 2 ^ 8.
Proof. reflexivity. Qed.

Lemma pow2_double bits : 0 < bits -> 2 ^ bits = 2 * 2 ^ (bits - 1).
Proof.
  intros Hb. replace bits with (Z.succ (bits - 1)) at 1 by lia.
  apply Z.pow_succ_r. lia.
Qed.

Lemma to_signed_small bits v :
  0 < bits -> - 2 ^ (bits - 1) <= v < 2 ^ (bits - 1) -> to_signed bits v = v.
Proof.
  intros Hb Hv. unfold to_signed. pose proof (pow2_double bits Hb).
  rewrite Z.mod_small by lia. lia.
Qed.

Lemma to_signed_mod bits v :
  0 < bits -> - 2 ^ (bits - 1) <= v < 2 ^ (bits - 1) ->
  to_signed bits (v mod 2 ^ bits) = v.
Proof.
  intros Hb Hv. unfold to_signed. pose proof (pow2_double bits Hb).
  rewrite Zplus_mod_idemp_l. rewrite Z.mod_small by lia. lia.
Qed.

Lemma conv_int8_small v : -128 <= v <= 127 -> conv_int8 v = v.
Proof. intros H. apply to_signed_small; [lia|]. change (2 ^ (8 - 1)) with 128. lia. Qed.

Lemma conv_int16_small v : -32768 <= v <= 32767 -> conv_int16 v = v.
Proof. intros H. apply to_signed_small; [lia|]. change (2 ^ (16 - 1)) with 32768. lia. Qed.

Lemma conv_int32_small v : -2147483648 <= v <= 2147483647 -> conv_int32 v = v.
Proof.
  intros H. apply to_signed_small; [lia|].
  change (2 ^ (32 - 1)) with 2147483648. lia.
Qed.

Lemma conv_int64_small v :
  -9223372036854775808 <= v <= 9223372036854775807 -> conv_int64 v = v.
Proof.
  intros H. apply to_signed_small; [lia|].
  change (2 ^ (64 - 1)) with 9223372036854775808. lia.
Qed.

Lemma conv_uint8_small v : 0 <= v <= 255 -> conv_uint8 v = v.
Proof. intros H. apply to_unsigned_small. change (2 ^ 8) with 256. lia. Qed.

Lemma decode_fixint_written i :
  -32 <= i <= 127 -> msgpack_decode_int [conv_byte i] = Some i.
Proof.
  intros H. change (msgpack_decode_int [conv_byte i]) with (decode_fixint (conv_byte i)).
  rewrite conv_byte_fixint by (unfold minFixedInt, maxFixedInt; lia).
  apply decode_fixint_byte. unfold minFixedInt, maxFixedInt; lia.
Qed.

Lemma decode_uint8_written v : msgpack_decode_int [typeUint8; v] = Some v.
Proof. reflexivity. Qed.

Lemma decode_int8_written v :
  -128 <= v <= 127 -> msgpack_decode_int [typeInt8; conv_byte v] = Some v.
Proof.
  intros H.
  change (msgpack_decode_int [typeInt8; conv_byte v])
    with (Some (to_signed 8 (be_value [conv_byte v]))).
  rewrite be_value_byte, to_signed_mod; [reflexivity | lia |].
  change (2 ^ (8 - 1)) with 128. lia.
Qed.

Lemma decode_int16_written v :
  -32768 <= v <= 32767 -> msgpack_decode_int (typeInt16 :: be16 v) = Some v.
Proof.
  intros H.
  change (msgpack_decode_int (typeInt16 :: be16 v))
    with (Some (to_signed 16 (be_value (be16 v)))).
  rewrite be_value_be16, to_signed_mod; [reflexivity | lia |].
  change (2 ^ (16 - 1)) with 32768. lia.
Qed.

Lemma decode_int32_written v :
  -2147483648 <= v <= 2147483647 ->
  msgpack_decode_int (typeInt32 :: be32 v) = Some v.
Proof.
  intros H.
  change (msgpack_decode_int (typeInt32 :: be32 v))
    with (Some (to_signed 32 (be_value (be32 v)))).
  rewrite be_value_be32, to_signed_mod; [reflexivity | lia |].
  change (2 ^ (32 - 1)) with 2147483648. lia.
Qed.

Lemma decode_int64_written v :
  -9223372036854775808 <= v <= 9223372036854775807 ->
  msgpack_decode_int (typeInt64 :: be64 v) = Some v.
Proof.
  intros H.
  change (msgpack_decode_int (typeInt64 :: be64 v))
    with (Some (to_signed 64 (be_value (be64 v)))).
  rewrite be_value_be64, to_signed_mod; [reflexivity | lia |].
  change (2 ^ (64 - 1)) with 9223372036854775808. lia.
Qed.

(** Running an encoder on the fresh buffer, branch by branch. *)
Ltac run_fresh :=
  cbv beta iota zeta delta
    [written result contents fresh_world buffer NewEncoder bind ret panic
     Write write_out io_Write err out with_err writers requests behaviour
     encoders upd fst snd List.concat List.app Nat.eqb be16 be32 be64];
  repeat match goal with
         | |- context [ [conv_byte (Z.shiftr ?v 56); conv_byte (Z.shiftr ?v 48);
                         conv_byte (Z.shiftr ?v 40); conv_byte (Z.shiftr ?v 32);
                         conv_byte (Z.shiftr ?v 24); conv_byte (Z.shiftr ?v 16);
                         conv_byte (Z.shiftr ?v 8); conv_byte ?v] ] =>
           change [conv_byte (Z.shiftr v 56); conv_byte (Z.shiftr v 48);
                   conv_byte (Z.shiftr v 40); conv_byte (Z.shiftr v 32);
                   conv_byte (Z.shiftr v 24); conv_byte (Z.shiftr v 16);
                   conv_byte (Z.shiftr v 8); conv_byte v] with (be64 v)
         | |- context [ [conv_byte (Z.shiftr ?v 24); conv_byte (Z.shiftr ?v 16);
                         conv_byte (Z.shiftr ?v 8); conv_byte ?v] ] =>
           change [conv_byte (Z.shiftr v 24); conv_byte (Z.shiftr v 16);
                   conv_byte (Z.shiftr v 8); conv_byte v] with (be32 v)
         | |- context [ [conv_byte (Z.shiftr ?v 8); conv_byte ?v] ] =>
           change [conv_byte (Z.shiftr v 8); conv_byte v] with (be16 v)
         end.

Ltac unfold_bounds :=
  unfold in_range, int_min, int_max, minFixedInt, maxFixedInt, minFixedUint,
    maxFixedUint, MinInt8, MinInt16, MinInt32, MinInt64, MaxInt64, MaxUint8,
    MaxUint16, MaxUint32, MaxUint64 in *.

Ltac int_branches t :=
  destruct t; unfold encode_as, EncodeInt8, EncodeInt16, EncodeInt32,
    EncodeInt64, EncodeInt, EncodeUint8, EncodeUint16, EncodeUint32,
    EncodeUint64, EncodeUint;
  unfold_bounds; leb_cases; run_fresh.

Ltac small_convs :=
  rewrite ?conv_int8_small, ?conv_int16_small, ?conv_int32_small,
    ?conv_int64_small, ?conv_uint8_small by lia.

Lemma int_written_size t i :
  in_range t i ->
  result (encode_as t (NewEncoder 0) i) = Returned None /\
  len (written (encode_as t (NewEncoder 0) i)) = msgpack_int_size i.
Proof.
  intros H. int_branches t.
  all: split; [reflexivity|].
  all: unfold msgpack_int_size; leb_cases; reflexivity.
Qed.

Lemma int_written_form t i :
  in_range t i ->
  (is_signed_form (written (encode_as t (NewEncoder 0) i)) = true <->
   i < -32 \/ (t = TInt16 /\ 256 <= i) \/ (t = TInt32 /\ 65536 <= i)).
Proof.
  intros H. int_branches t.
  all: first [ change (is_signed_form _) with true
             | change (is_signed_form _) with false ].
  all: split; intros Hx; try discriminate Hx; try reflexivity.
  all: try (exfalso; destruct Hx as [Hx|[[Hx ?]|[Hx ?]]];
            first [lia | discriminate Hx]).
  all: first [ left; lia
             | right; left; split; [reflexivity|lia]
             | right; right; split; [reflexivity|lia] ].
Qed.

Lemma int_written_small t i :
  in_range t i ->
  (-32 <= i <= 127 -> written (encode_as t (NewEncoder 0) i) = [fixint_byte i]) /\
  (128 <= i <= 255 -> written (encode_as t (NewEncoder 0) i) = [0xcc; i]).
Proof.
  intros H. int_branches t.
  all: split; intros Hx; try lia.
  all: small_convs; try reflexivity.
  all: first [ rewrite conv_byte_fixint by (unfold minFixedInt, maxFixedInt; lia);
               reflexivity
             | unfold fixint_byte; leb_cases; reflexivity ].
Qed.

Lemma int_written_valid t i :
  in_range t i ->
  i <= 255 \/ is_signed_form (written (encode_as t (NewEncoder 0) i)) = true ->
  msgpack_decode_int (written (encode_as t (NewEncoder 0) i)) = Some i.
Proof.
  intros H. int_branches t.
  all: intros [Hx|Hx]; try lia.
  all: try (change (is_signed_form _) with false in Hx; discriminate Hx).
  all: match goal with
       | |- msgpack_decode_int [conv_byte _] = _ =>
         apply decode_fixint_written; lia
       | |- msgpack_decode_int [typeUint8; _] = _ =>
         small_convs; apply decode_uint8_written
       | |- msgpack_decode_int [typeInt8; _] = _ =>
         small_convs; apply decode_int8_written; lia
       | |- msgpack_decode_int (typeInt16 :: be16 _) = _ =>
         small_convs; apply decode_int16_written; lia
       | |- msgpack_decode_int (typeInt32 :: be32 _) = _ =>
         small_convs; apply decode_int32_written; lia
       | |- msgpack_decode_int (typeInt64 :: be64 _) = _ =>
         small_convs; apply decode_int64_written; lia
       end.
Qed.

(** C6, as amended: for every value [i] of its type, each integer
    encoder writes an encoding of the least length an integer form of
    [i] can have: 1 byte for -32..127 (the fixint byte), 2 bytes for
    128..255 (0xcc and the value) and -128..-33, 3 bytes for 256..65535
    and -32768..-129, 5 bytes up to 32 bits, 9 bytes beyond.  A
    non-negative value is written in a signed form only by EncodeInt16
    from 256 and by EncodeInt32 from 65536, where the signed form is as
    short as the unsigned one.  What is written reads back as [i] when
    [i] is at most 255 or the form is a signed one; the tag bytes of the
    wider unsigned tiers are not part of the statement.  The bytes are
    those left in the fresh buffer of the tests; any encoder without
    error adds the same bytes to any writer that accepts them. *)
Theorem integer_encoders_choose_least_length (t : int_type) (i : Z)
    (H : in_range t i) :
  let bs := written (encode_as t (NewEncoder 0) i) in
  result (encode_as t (NewEncoder 0) i) = Returned None /\
  (forall enc, err enc = None -> appends (encode_as t enc i) (out enc) bs) /\
  len bs = msgpack_int_size i /\
  (forall bs', Forall is_byte bs' -> msgpack_decode_int bs' = Some i ->
               len bs <= len bs') /\
  (-32 <= i <= 127 -> bs = [fixint_byte i]) /\
  (128 <= i <= 255 -> bs = [0xcc; i]) /\
  (is_signed_form bs = true <->
   i < -32 \/ (t = TInt16 /\ 256 <= i) \/ (t = TInt32 /\ 65536 <= i)) /\
  (i <= 255 \/ is_signed_form bs = true -> msgpack_decode_int bs = Some i).
Proof.
  cbv zeta.
  destruct (int_written_size t i H) as [Hr Hs].
  destruct (int_written_small t i H) as [Hf Hu].
  split; [exact Hr|].
  split; [intros enc He; apply encode_as_appends; exact He|].
  split; [exact Hs|]. split.
  { intros bs' Hb Hd. rewrite Hs. apply msgpack_int_size_least; assumption. }
  split; [exact Hf|]. split; [exact Hu|]. split.
  - apply int_written_form; exact H.
  - apply int_written_valid; exact H.
Qed.

Lemma integer_encoders_choose_least_length_witness :
  in_range TInt 32768 /\
  result (encode_as TInt (NewEncoder 0) 32768) = Returned None /\
  len (written (encode_as TInt (NewEncoder 0) 32768)) = 3.
Proof.
  assert (Hr : in_range TInt 32768) by (unfold_bounds; lia).
  split; [exact Hr|].
  pose proof (integer_encoders_choose_least_length TInt 32768 Hr) as Hw.
  cbv zeta in Hw. destruct Hw as (Hres & _ & Hlen & _).
  split; [exact Hres | exact Hlen].
Defined.

(** C6 as stated fails where it has the unsigned form preferred: 256 as
    an int16 is written in the int16 form 0xd1 0x01 0x00, although the
    uint16 form of 256 is no longer. *)
Lemma EncodeInt16_256_is_written_signed :
  written (EncodeInt16 (NewEncoder 0) 256) = [0xd1; 0x01; 0x00] /\
  msgpack_decode_int [0xcd; 0x01; 0x00] = Some 256 /\
  ~ prefers_unsigned 256 (written (EncodeInt16 (NewEncoder 0) 256)).
Proof.
  split; [reflexivity|]. split; [reflexivity|].
  intros Hp. specialize (Hp ltac:(lia)). discriminate Hp.
Qed.

(** The sizes named by the specification and the README. *)
Example integer_sizes :
  map (fun i => written (EncodeInt (NewEncoder 0) i)) [0; 127; 128; 1024; 32768]
  = [[0x00]; [0x7f]; [0xcc; 0x80]; [0xcc; 0x04; 0x00]; [0xcc; 0x80; 0x00]].
Proof. reflexivity. Qed.

(** * Further properties *)

(** ** The primitive writer, request by request *)

Lemma conv_byte_is_byte v : is_byte (conv_byte v).
Proof.
  unfold is_byte, conv_byte, to_unsigned. change (2 ^ 8) with 256.
  pose proof (Z.mod_pos_bound v 256 ltac:(lia)). lia.
Qed.

Lemma be16_bytes v : Forall is_byte (be16 v).
Proof. unfold be16. repeat constructor; apply conv_byte_is_byte. Qed.

Lemma be32_bytes v : Forall is_byte (be32 v).
Proof. unfold be32. repeat constructor; apply conv_byte_is_byte. Qed.

Lemma be64_bytes v : Forall is_byte (be64 v).
Proof. unfold be64. repeat constructor; apply conv_byte_is_byte. Qed.

(** X1: Write on an encoder without error makes one request of the writer,
    for a value of a supported type, and returns the writer's answer;
    the request is the big-endian image of the value: 1, 2, 4 or 8
    bytes, each in 0..255, that read back as the value (unsigned) or as
    its two's complement (signed); a float travels as its bit pattern. *)
Theorem Write_big_endian (enc : Encoder) (w : World) (He : err enc = None) :
  (forall b p, wire b = Some p -> Write enc b w = io_Write (out enc) p w) /\
  (forall v, wire (VInt8 v) = Some [conv_byte v] /\
             (-128 <= v <= 127 -> to_signed 8 (be_value [conv_byte v]) = v)) /\
  (forall v, wire (VInt16 v) = Some (be16 v) /\
             wire (VUint16 v) = Some (be16 v) /\
             len (be16 v) = 2 /\ Forall is_byte (be16 v) /\
             (0 <= v <= MaxUint16 -> be_value (be16 v) = v) /\
             (MinInt16 <= v <= 32767 -> to_signed 16 (be_value (be16 v)) = v)) /\
  (forall v, wire (VInt32 v) = Some (be32 v) /\
             wire (VUint32 v) = Some (be32 v) /\
             wire (VFloat32 v) = Some (be32 v) /\
             len (be32 v) = 4 /\ Forall is_byte (be32 v) /\
             (0 <= v <= MaxUint32 -> be_value (be32 v) = v) /\
             (MinInt32 <= v <= 2147483647 ->
              to_signed 32 (be_value (be32 v)) = v)) /\
  (forall v, wire (VInt64 v) = Some (be64 v) /\
             wire (VUint64 v) = Some (be64 v) /\
             wire (VFloat64 v) = Some (be64 v) /\
             len (be64 v) = 8 /\ Forall is_byte (be64 v) /\
             (0 <= v <= MaxUint64 -> be_value (be64 v) = v) /\
             (MinInt64 <= v <= MaxInt64 ->
              to_signed 64 (be_value (be64 v)) = v)).
Proof.
  split; [|split; [|split; [|split]]].
  - intros b p Hw. unfold Write. rewrite He.
    destruct b; simpl in Hw; try discriminate Hw; injection Hw as <-;
      apply write_out_io_Write.
  - intros v. split; [reflexivity|]. intros Hv.
    rewrite be_value_byte. apply to_signed_mod; [lia|].
    change (2 ^ (8 - 1)) with 128. lia.
  - intros v. repeat split; try reflexivity.
    + apply be16_bytes.
    + unfold MaxUint16. intros Hv. rewrite be_value_be16.
      apply Z.mod_small. change (2 ^ 16) with 65536. lia.
    + unfold MinInt16. intros Hv. rewrite be_value_be16.
      apply to_signed_mod; [lia|]. change (2 ^ (16 - 1)) with 32768. lia.
  - intros v. repeat split; try reflexivity.
    + apply be32_bytes.
    + unfold MaxUint32. intros Hv. rewrite be_value_be32.
      apply Z.mod_small. change (2 ^ 32) with 4294967296. lia.
    + unfold MinInt32. intros Hv. rewrite be_value_be32.
      apply to_signed_mod; [lia|]. change (2 ^ (32 - 1)) with 2147483648. lia.
  - intros v. repeat split; try reflexivity.
    + apply be64_bytes.
    + unfold MaxUint64. intros Hv. rewrite be_value_be64.
      apply Z.mod_small. change (2 ^ 64) with 18446744073709551616. lia.
    + unfold MinInt64, MaxInt64. intros Hv. rewrite be_value_be64.
      apply to_signed_mod; [lia|].
      change (2 ^ (64 - 1)) with 9223372036854775808. lia.
Qed.

Lemma Write_big_endian_witness :
  err (NewEncoder 0) = None /\
  Write (NewEncoder 0) (VUint16 65280) fresh_world
  = io_Write 0 [0xff; 0x00] fresh_world.
Proof.
  split; [reflexivity|].
  apply (proj1 (Write_big_endian (NewEncoder 0) fresh_world eq_refl)).
  reflexivity.
Defined.

Lemma io_Write_calm o p w :
  calm w -> io_Write o p w = (log o p w, Returned (answer w o p)).
Proof.
  intros Hc. unfold io_Write, answer, log. cbv zeta.
  destruct (behaviour (writers w o) (requests (writers w o)) p) eqn:E;
    try reflexivity.
  exfalso. exact (Hc _ _ _ _ E).
Qed.

Lemma calm_log o p w : calm w -> calm (log o p w).
Proof.
  intros Hc o' h q v. unfold log, upd. simpl.
  destruct (Nat.eqb o' o); simpl; apply Hc.
Qed.

Lemma calm_log_all o ps w : calm w -> calm (log_all o ps w).
Proof.
  revert w. induction ps as [|p ps IH]; intros w Hc; simpl.
  - exact Hc.
  - apply IH. apply calm_log. exact Hc.
Qed.

Lemma Write_calm enc b p w :
  err enc = None -> wire b = Some p -> calm w ->
  Write enc b w = (log (out enc) p w, Returned (answer w (out enc) p)).
Proof.
  intros He Hw Hc.
  assert (Hrun : Write enc b w = io_Write (out enc) p w).
  { unfold Write. rewrite He.
    destruct b; simpl in Hw; try discriminate Hw; injection Hw as <-;
      apply write_out_io_Write. }
  rewrite Hrun. apply io_Write_calm. exact Hc.
Qed.

(** A single Write, and a tag followed by a payload, in a calm world. *)
Lemma single_calm enc b p w :
  err enc = None -> wire b = Some p -> calm w ->
  Write enc b w
  = (log_all (out enc) [p] w,
     Returned (last (answers w (out enc) [p]) None)).
Proof. intros He Hw Hc. rewrite (Write_calm enc b p w He Hw Hc). reflexivity. Qed.

Lemma tagged_calm enc t b p w :
  err enc = None -> wire b = Some p -> calm w ->
  (_ = Write enc (VUint8 t) ;; Write enc b) w
  = (log_all (out enc) [[t]; p] w,
     Returned (last (answers w (out enc) [[t]; p]) None)).
Proof.
  intros He Hw Hc. unfold bind.
  rewrite (Write_calm enc (VUint8 t) [t] w He eq_refl Hc).
  rewrite (Write_calm enc b p _ He Hw (calm_log _ _ _ Hc)).
  reflexivity.
Qed.

Ltac fresh_requests_rhs :=
  match goal with
  | |- ?lhs = (log_all _ ?ps _, _) =>
    let ps' := eval cbv beta iota zeta delta
      [requested written result contents fresh_world buffer NewEncoder bind
       ret panic Write write_out io_Write err out with_err writers requests
       behaviour encoders upd fst snd List.app Nat.eqb] in ps in
    change ps with ps'
  end.

Ltac calm_leaf He Hc :=
  first [ apply tagged_calm; [exact He | reflexivity | exact Hc]
        | apply single_calm; [exact He | reflexivity | exact Hc] ].

Ltac if_cases :=
  repeat match goal with
         | |- context [if ?c then _ else _] => destruct c
         end.

Lemma encode_as_calm t enc i w :
  err enc = None -> calm w ->
  encode_as t enc i w
  = (log_all (out enc) (requested (encode_as t (NewEncoder 0) i)) w,
     Returned (last (answers w (out enc)
                       (requested (encode_as t (NewEncoder 0) i))) None)).
Proof.
  intros He Hc.
  destruct t; unfold encode_as, EncodeInt8, EncodeInt16, EncodeInt32,
    EncodeInt64, EncodeInt, EncodeUint8, EncodeUint16, EncodeUint32,
    EncodeUint64, EncodeUint.
  all: if_cases.
  all: fresh_requests_rhs; calm_leaf He Hc.
Qed.

(** X2: The integer encoders never stop early: on an encoder without
    error, whatever the writer answers (short of a panic), a call sends
    the very requests it sends to an accepting buffer, and returns the
    writer's answer to the last of them; a rejected tag byte does not
    keep the payload from being sent. *)
Theorem integer_encoders_send_all_requests (t : int_type) (enc : Encoder)
    (i : Z) (w : World) (He : err enc = None) (Hc : calm w) :
  let ps := requested (encode_as t (NewEncoder 0) i) in
  encode_as t enc i w
  = (log_all (out enc) ps w, Returned (last (answers w (out enc) ps) None)).
Proof. cbv zeta. apply encode_as_calm; assumption. Qed.

Lemma integer_encoders_send_all_requests_witness :
  let w := world_with (rejects_first (WriterError 1)) in
  err (NewEncoder 0) = None /\ calm w /\
  encode_as TInt (NewEncoder 0) 300 w
  = (log_all 0 [[0xcc]; [0x01; 0x2c]] w, Returned None).
Proof.
  cbv zeta.
  assert (Hc : calm (world_with (rejects_first (WriterError 1)))).
  { intros o h p v. simpl. destruct h; discriminate. }
  split; [reflexivity|]. split; [exact Hc|].
  rewrite (integer_encoders_send_all_requests TInt (NewEncoder 0) 300 _
             eq_refl Hc).
  reflexivity.
Defined.

(** ** Header writers, whatever the writer answers *)

Lemma then_ret_eq (m : M (option error)) w w' r (x : option error) :
  m w = (w', Returned r) -> (_ = m ;; ret x) w = (w', Returned x).
Proof. intros H. unfold bind. rewrite H. reflexivity. Qed.

Ltac header_calm He Hc :=
  rewrite He; if_cases; fresh_requests_rhs;
  eapply then_ret_eq; calm_leaf He Hc.

Lemma WriteArrayHeader_calm enc n w :
  err enc = None -> calm w ->
  WriteArrayHeader enc n w
  = (log_all (out enc) (requested (WriteArrayHeader (NewEncoder 0) n)) w,
     Returned None).
Proof. intros He Hc. unfold WriteArrayHeader. header_calm He Hc. Qed.

Lemma WriteMapHeader_calm enc n w :
  err enc = None -> calm w ->
  WriteMapHeader enc n w
  = (log_all (out enc) (requested (WriteMapHeader (NewEncoder 0) n)) w,
     Returned None).
Proof. intros He Hc. unfold WriteMapHeader. header_calm He Hc. Qed.

Lemma WriteStringHeader_calm enc n w :
  err enc = None -> calm w ->
  WriteStringHeader enc n w
  = (log_all (out enc) (requested (WriteStringHeader (NewEncoder 0) n)) w,
     Returned None).
Proof. intros He Hc. unfold WriteStringHeader. header_calm He Hc. Qed.

(** X3: A header writer returns the err field its receiver came with, never
    the writer's answer: nil on an encoder without error even when the
    writer rejects the tag or the length, the sticky error otherwise.
    Without error it sends the requests it sends to an accepting buffer,
    the length after a rejected tag included. *)
Theorem header_writers_return_receiver_err (enc : Encoder) (n : Z) (w : World)
    (Hc : calm w) :
  snd (WriteArrayHeader enc n w) = Returned (err enc) /\
  snd (WriteMapHeader enc n w) = Returned (err enc) /\
  snd (WriteStringHeader enc n w) = Returned (err enc) /\
  (err enc = None ->
   fst (WriteArrayHeader enc n w)
   = log_all (out enc) (requested (WriteArrayHeader (NewEncoder 0) n)) w /\
   fst (WriteMapHeader enc n w)
   = log_all (out enc) (requested (WriteMapHeader (NewEncoder 0) n)) w /\
   fst (WriteStringHeader enc n w)
   = log_all (out enc) (requested (WriteStringHeader (NewEncoder 0) n)) w).
Proof.
  destruct (err enc) as [e|] eqn:He.
  - rewrite (sticky_WriteArrayHeader e enc n He w).
    rewrite (sticky_WriteMapHeader e enc n He w).
    rewrite (sticky_WriteStringHeader e enc n He w).
    split; [reflexivity|]. split; [reflexivity|]. split; [reflexivity|].
    intros Hx; discriminate Hx.
  - rewrite (WriteArrayHeader_calm enc n w He Hc).
    rewrite (WriteMapHeader_calm enc n w He Hc).
    rewrite (WriteStringHeader_calm enc n w He Hc).
    repeat split.
Qed.

Lemma header_writers_return_receiver_err_witness :
  calm (world_with (rejects_all (WriterError 1))) /\
  snd (WriteArrayHeader (NewEncoder 0) 16 (world_with (rejects_all (WriterError 1))))
  = Returned None /\
  requests (writers (fst (WriteArrayHeader (NewEncoder 0) 16
                           (world_with (rejects_all (WriterError 1))))) 0%nat)
  = [[0xdc]; [0x00; 0x10]].
Proof.
  assert (Hc : calm (world_with (rejects_all (WriterError 1))))
    by (intros o h p v; simpl; discriminate).
  split; [exact Hc|].
  destruct (header_writers_return_receiver_err (NewEncoder 0) 16 _ Hc)
    as (Hr & _ & _ & Hw).
  split; [exact Hr|].
  rewrite (proj1 (Hw eq_refl)). reflexivity.
Defined.

(** ** EncodeString *)

Lemma log_all_snoc o ps p w :
  log_all o (ps ++ [p]) w = log o p (log_all o ps w).
Proof. unfold log_all. rewrite fold_left_app. reflexivity. Qed.

Lemma last_answers_snoc o ps p w :
  last (answers w o (ps ++ [p])) None = answer (log_all o ps w) o p.
Proof.
  revert w. induction ps as [|q ps IH]; intros w.
  - reflexivity.
  - change (answers w o ((q :: ps) ++ [p]))
      with (answer w o q :: answers (log o q w) o (ps ++ [p])).
    change (log_all o (q :: ps) w) with (log_all o ps (log o q w)).
    rewrite <- IH.
    destruct (answers (log o q w) o (ps ++ [p])) eqn:E; [|reflexivity].
    destruct ps; discriminate E.
Qed.

Lemma requested_EncodeString s :
  requested (EncodeString (NewEncoder 0) s)
  = requested (WriteStringHeader (NewEncoder 0) (len s)) ++ [s].
Proof.
  unfold requested, EncodeString, WriteStringHeader. if_cases; reflexivity.
Qed.

Lemma EncodeString_calm enc s w :
  err enc = None -> calm w ->
  EncodeString enc s w
  = (log_all (out enc)
       (requested (WriteStringHeader (NewEncoder 0) (len s)) ++ [s]) w,
     Returned (answer (log_all (out enc)
                         (requested (WriteStringHeader (NewEncoder 0) (len s)))
                         w)
                      (out enc) s)).
Proof.
  intros He Hc. unfold EncodeString. unfold bind at 1.
  rewrite (WriteStringHeader_calm enc (len s) w He Hc).
  unfold bind.
  rewrite io_Write_calm by (apply calm_log_all; exact Hc).
  rewrite log_all_snoc. reflexivity.
Qed.

(** X4: EncodeString sends the content whatever became of the header: on an
    encoder without error, whatever the writer answers (short of a
    panic), the writer is sent the header and then the bytes of the
    string, and the call returns the writer's answer to the content
    alone; a rejected header is not reported. *)
Theorem EncodeString_sends_content_regardless (enc : Encoder) (s : list byte)
    (w : World) (He : err enc = None) (Hc : calm w) :
  let hps := requested (WriteStringHeader (NewEncoder 0) (len s)) in
  requested (EncodeString (NewEncoder 0) s) = hps ++ [s] /\
  EncodeString enc s w
  = (log_all (out enc) (hps ++ [s]) w,
     Returned (answer (log_all (out enc) hps w) (out enc) s)).
Proof.
  cbv zeta. split; [apply requested_EncodeString|].
  apply EncodeString_calm; assumption.
Qed.

Lemma EncodeString_sends_content_regardless_witness :
  let w := world_with (rejects_first (WriterError 1)) in
  err (NewEncoder 0) = None /\ calm w /\
  EncodeString (NewEncoder 0) [0x69; 0x64] w
  = (log_all 0 [[0xa2]; [0x69; 0x64]] w, Returned None).
Proof.
  cbv zeta.
  assert (Hc : calm (world_with (rejects_first (WriterError 1)))).
  { intros o h p v. simpl. destruct h; discriminate. }
  split; [reflexivity|]. split; [exact Hc|].
  rewrite (proj2 (EncodeString_sends_content_regardless
                    (NewEncoder 0) [0x69; 0x64] _ eq_refl Hc)).
  reflexivity.
Defined.

(** ** Strings, binary data and floats on an accepting writer *)

Lemma appends_bind_none (m : M (option error))
    (k : option error -> M (option error)) o b1 b2 :
  appends m o b1 -> appends (k None) o b2 -> appends (bind m k) o (b1 ++ b2).
Proof.
  intros Hm Hk w Hacc. unfold bind.
  destruct (Hm w Hacc) as (Hr & Ha & Hc & Ho).
  destruct (m w) as [w1 r1]. simpl in *. subst r1.
  destruct (Hk w1 Ha) as (Hr2 & Ha2 & Hc2 & Ho2).
  repeat split; try assumption.
  - rewrite Hc2, Hc. symmetry. apply app_assoc.
  - intros o' Hne. rewrite Ho2, Ho by assumption. reflexivity.
Qed.

Lemma appends_written (m : M (option error)) bs :
  appends m 0%nat bs -> written m = bs /\ result m = Returned None.
Proof.
  intros Hm. assert (Hacc : accepts_all (writers fresh_world 0%nat))
    by (intros h p; reflexivity).
  destruct (Hm fresh_world Hacc) as (Hr & _ & Hc & _).
  split; [exact Hc | exact Hr].
Qed.

Lemma appends_three enc t b1 p1 b2 p2 :
  err enc = None -> wire b1 = Some p1 -> wire b2 = Some p2 ->
  appends (_ = Write enc (VUint8 t) ;; _ = Write enc b1 ;; Write enc b2)
          (out enc) (t :: p1 ++ p2).
Proof.
  intros He H1 H2. change (t :: p1 ++ p2) with ([t] ++ (p1 ++ p2)).
  apply appends_bind; [apply appends_Write; auto | intros _].
  apply appends_bind; [|intros _]; apply appends_Write; auto.
Qed.

Lemma EncodeString_appends enc s :
  err enc = None -> len s <= MaxUint32 ->
  appends (EncodeString enc s) (out enc) (string_header (len s) ++ s).
Proof.
  intros He Hn. assert (H0 : 0 <= len s) by (unfold len; lia).
  unfold EncodeString. apply appends_bind_none.
  - rewrite <- (proj1 (WriteStringHeader_written (len s) (conj H0 Hn))).
    apply WriteStringHeader_appends. exact He.
  - rewrite <- (app_nil_r s) at 2.
    apply appends_bind_none; [apply appends_io_Write|].
    apply appends_ret.
Qed.

Lemma take_exactly_len s : take_exactly (len s) s = Some s.
Proof. unfold take_exactly. rewrite Z.eqb_refl. reflexivity. Qed.

Lemma decode_string_table s :
  len s <= MaxUint32 -> decode_string (string_header (len s) ++ s) = Some s.
Proof.
  unfold MaxUint32. intros Hn. assert (H0 : 0 <= len s) by (unfold len; lia).
  generalize (take_exactly_len s). generalize dependent (len s). intros n Hn H0 Ht.
  unfold string_header. leb_cases.
  - destruct (fix_tag_lor 0xa0 n) as [_ Hd];
      [right; right; reflexivity | lia | left; reflexivity |].
    change (0xa0 =? 0xa0) with true in Hd. cbv iota in Hd.
    cbn [app]. unfold decode_string. rewrite Hd.
    leb_cases. exact Ht.
  - exact Ht.
  - cbn [app]. unfold decode_string.
    change ((0xa0 <=? 0xda) && (0xda <=? 0xbf)) with false.
    change (0xda =? 0xd9) with false. change (0xda =? 0xda) with true.
    cbv iota. rewrite be_value_2 by lia. exact Ht.
  - cbn [app]. unfold decode_string.
    change ((0xa0 <=? 0xdb) && (0xdb <=? 0xbf)) with false.
    change (0xdb =? 0xd9) with false. change (0xdb =? 0xda) with false.
    change (0xdb =? 0xdb) with true.
    cbv iota. rewrite be_value_4 by lia. exact Ht.
Qed.

(** X5: EncodeString round trip: for a string of at most 4294967295 bytes,
    an encoder without error adds to an accepting writer the header of
    the tier of its byte length followed by its bytes, returns nil, and
    a reader of the format gets the string back. *)
Theorem EncodeString_round_trip (enc : Encoder) (s : list byte)
    (He : err enc = None) (Hn : len s <= MaxUint32) :
  appends (EncodeString enc s) (out enc) (string_header (len s) ++ s) /\
  written (EncodeString (NewEncoder 0) s) = string_header (len s) ++ s /\
  decode_string (written (EncodeString (NewEncoder 0) s)) = Some s.
Proof.
  pose proof (EncodeString_appends (NewEncoder 0) s eq_refl Hn) as H0.
  apply appends_written in H0. destruct H0 as [Hw _].
  split; [apply EncodeString_appends; assumption|].
  split; [exact Hw|]. rewrite Hw. apply decode_string_table. exact Hn.
Qed.

Lemma EncodeString_round_trip_witness :
  err (NewEncoder 0) = None /\ len [0x69; 0x64] <= MaxUint32 /\
  written (EncodeString (NewEncoder 0) [0x69; 0x64]) = [0xa2; 0x69; 0x64] /\
  decode_string (written (EncodeString (NewEncoder 0) [0x69; 0x64]))
  = Some [0x69; 0x64].
Proof.
  assert (Hn : len [0x69; 0x64] <= MaxUint32) by (vm_compute; discriminate).
  split; [reflexivity|]. split; [exact Hn|].
  exact (proj2 (EncodeString_round_trip (NewEncoder 0) [0x69; 0x64] eq_refl Hn)).
Defined.

Lemma EncodeBytes_appends enc p :
  err enc = None -> len p <= MaxUint32 ->
  appends (EncodeBytes enc (Some p)) (out enc) (bin_header (len p) ++ p).
Proof.
  unfold MaxUint32. intros He Hn.
  assert (H0 : 0 <= len p) by (unfold len; lia).
  unfold EncodeBytes. leb_cases.
  - assert (Hb : bin_header (len p) ++ p
                 = typeBin8 :: [conv_byte (len p)] ++ p).
    { unfold bin_header. leb_cases. unfold conv_byte.
      rewrite to_unsigned_small by (simpl; lia). reflexivity. }
    rewrite Hb. apply appends_three; [exact He | reflexivity | reflexivity].
  - assert (Hb : bin_header (len p) ++ p
                 = typeBin16 :: be16 (conv_uint16 (len p)) ++ p).
    { unfold bin_header. leb_cases. unfold conv_uint16.
      rewrite to_unsigned_small by (simpl; lia).
      rewrite be16_small by lia. reflexivity. }
    rewrite Hb. apply appends_three; [exact He | reflexivity | reflexivity].
  - assert (Hb : bin_header (len p) ++ p
                 = typeBin32 :: be32 (conv_uint32 (len p)) ++ p).
    { unfold bin_header. leb_cases. unfold conv_uint32.
      rewrite to_unsigned_small by (simpl; lia).
      rewrite be32_small by lia. reflexivity. }
    rewrite Hb. apply appends_three; [exact He | reflexivity | reflexivity].
Qed.

Lemma decode_bin_table p :
  len p <= MaxUint32 -> decode_bin (bin_header (len p) ++ p) = Some (Some p).
Proof.
  unfold MaxUint32. intros Hn. assert (H0 : 0 <= len p) by (unfold len; lia).
  generalize (take_exactly_len p). generalize dependent (len p). intros n Hn H0 Ht.
  unfold bin_header. leb_cases.
  - cbn [app]. unfold decode_bin.
    change (0xc4 =? 0xc0) with false. change (0xc4 =? 0xc4) with true.
    cbv iota. rewrite Ht. reflexivity.
  - cbn [app]. unfold decode_bin.
    change (0xc5 =? 0xc0) with false. change (0xc5 =? 0xc4) with false.
    change (0xc5 =? 0xc5) with true.
    cbv iota. rewrite be_value_2 by lia. rewrite Ht. reflexivity.
  - cbn [app]. unfold decode_bin.
    change (0xc6 =? 0xc0) with false. change (0xc6 =? 0xc4) with false.
    change (0xc6 =? 0xc5) with false. change (0xc6 =? 0xc6) with true.
    cbv iota. rewrite be_value_4 by lia. rewrite Ht. reflexivity.
Qed.

(** X6: EncodeBytes round trip: a nil slice is written as the nil atom 0xc0;
    a slice of at most 4294967295 bytes, the empty one included, is
    written as the bin8, bin16 or bin32 header of its length followed by
    its bytes; a reader of the format gets back nil or the bytes. *)
Theorem EncodeBytes_round_trip (enc : Encoder) (He : err enc = None) :
  appends (EncodeBytes enc None) (out enc) [0xc0] /\
  decode_bin [0xc0] = Some None /\
  (forall p, len p <= MaxUint32 ->
     appends (EncodeBytes enc (Some p)) (out enc) (bin_header (len p) ++ p) /\
     written (EncodeBytes (NewEncoder 0) (Some p)) = bin_header (len p) ++ p /\
     decode_bin (written (EncodeBytes (NewEncoder 0) (Some p))) = Some (Some p)).
Proof.
  split; [|split; [reflexivity|]].
  - apply appends_Write; [exact He | reflexivity].
  - intros p Hn.
    pose proof (EncodeBytes_appends (NewEncoder 0) p eq_refl Hn) as H0.
    apply appends_written in H0. destruct H0 as [Hw _].
    split; [apply EncodeBytes_appends; assumption|].
    split; [exact Hw|]. rewrite Hw. apply decode_bin_table. exact Hn.
Qed.

Lemma EncodeBytes_round_trip_witness :
  err (NewEncoder 0) = None /\
  written (EncodeBytes (NewEncoder 0) (Some [])) = [0xc4; 0x00] /\
  written (EncodeBytes (NewEncoder 0) None) = [0xc0].
Proof.
  split; [reflexivity|].
  destruct (EncodeBytes_round_trip (NewEncoder 0) eq_refl) as (Hnil & _ & Hp).
  split.
  - apply (proj1 (proj2 (Hp [] ltac:(vm_compute; discriminate)))).
  - apply (proj1 (appends_written _ _ Hnil)).
Defined.

(** X7: The float encoders: on an encoder without error and an accepting
    writer, EncodeFloat32 adds 0xca and the four bytes, EncodeFloat64
    0xcb and the eight bytes, of the bit pattern, most significant byte
    first; the bytes read back as the bit pattern. *)
Theorem EncodeFloat_bit_pattern (enc : Encoder) (f : Z) (He : err enc = None) :
  appends (EncodeFloat32 enc f) (out enc) (0xca :: be32 f) /\
  appends (EncodeFloat64 enc f) (out enc) (0xcb :: be64 f) /\
  (0 <= f <= MaxUint32 -> be_value (be32 f) = f) /\
  (0 <= f <= MaxUint64 -> be_value (be64 f) = f).
Proof.
  split; [|split; [|split]].
  - apply appends_tagged; [exact He | reflexivity].
  - apply appends_tagged; [exact He | reflexivity].
  - unfold MaxUint32. intros Hf. rewrite be_value_be32.
    apply Z.mod_small. change (2 ^ 32) with 4294967296. lia.
  - unfold MaxUint64. intros Hf. rewrite be_value_be64.
    apply Z.mod_small. change (2 ^ 64) with 18446744073709551616. lia.
Qed.

Lemma EncodeFloat_bit_pattern_witness :
  err (NewEncoder 0) = None /\
  written (EncodeFloat64 (NewEncoder 0) 0x400921fb5a7ed197)
  = [0xcb; 0x40; 0x09; 0x21; 0xfb; 0x5a; 0x7e; 0xd1; 0x97].
Proof.
  split; [reflexivity|].
  apply (proj1 (appends_written _ _
    (proj1 (proj2 (EncodeFloat_bit_pattern (NewEncoder 0) 0x400921fb5a7ed197
                     eq_refl))))).
Defined.

(** ** The container encoders *)



Lemma with_err_same enc : err enc = None -> with_err enc None = enc.
Proof. destruct enc as [o e]. simpl. intros ->. reflexivity. Qed.

Lemma bind_assoc A B C (m : M A) (k : A -> M B) (k2 : B -> M C) w :
  bind (bind m k) k2 w = bind m (fun a => bind (k a) k2) w.
Proof. unfold bind. destruct (m w) as [w1 [a|x]]; reflexivity. Qed.

Lemma appends_ext (m m' : M (option error)) o bs :
  (forall w, m w = m' w) -> appends m' o bs -> appends m o bs.
Proof. intros Heq Hm w Hacc. rewrite Heq. apply Hm. exact Hacc. Qed.

Lemma EncodeArray_range_appends T (fn : Encoder -> T -> M (option error))
    (item : T -> list byte) :
  (forall enc v, err enc = None -> appends (fn enc v) (out enc) (item v)) ->
  forall s enc, err enc = None ->
    appends (enc' <- EncodeArray_range enc s fn ;; ret (err enc'))
            (out enc) (List.concat (map item s)).
Proof.
  intros Hfn. induction s as [|v rest IH]; intros enc He.
  - simpl. unfold bind, ret. rewrite He. apply appends_ret.
  - simpl. rewrite He.
    eapply appends_ext; [intros w; apply bind_assoc|].
    apply appends_bind_none; [apply Hfn; exact He|].
    rewrite (with_err_same enc He). apply IH. exact He.
Qed.

Lemma EncodeArray_fn_appends T enc (s : list T) fn (item : T -> list byte) :
  err enc = None -> len s <= MaxUint32 ->
  (forall enc' v, err enc' = None -> appends (fn enc' v) (out enc') (item v)) ->
  appends (EncodeArray_fn enc s fn) (out enc)
          (array_header (len s) ++ List.concat (map item s)).
Proof.
  intros He Hn Hfn. assert (H0 : 0 <= len s) by (unfold len; lia).
  unfold EncodeArray_fn. apply appends_bind_none.
  - rewrite <- (proj1 (WriteArrayHeader_written (len s) (conj H0 Hn))).
    apply WriteArrayHeader_appends. exact He.
  - apply EncodeArray_range_appends; [exact Hfn | exact He].
Qed.

(** X8: EncodeArray on an accepting writer: when each call of the item
    encoder on an encoder without error adds the bytes [item v] and
    returns nil, EncodeArray of a slice of at most 4294967295 items adds
    the array header of the length followed by the items' bytes in
    order, and returns nil.  The item encoder is the function passed, or
    Encode when none is passed. *)
Theorem EncodeArray_writes_header_then_items (T : Type) (box : T -> any)
    (enc : Encoder) (s : list T)
    (fn : option (Encoder -> T -> M (option error))) (item : T -> list byte)
    (He : err enc = None) (Hn : len s <= MaxUint32)
    (Hfn : forall enc' v, err enc' = None ->
             appends (match fn with
                      | Some f => f enc' v
                      | None => Encode enc' (box v)
                      end) (out enc') (item v)) :
  appends (EncodeArray box enc s fn) (out enc)
          (array_header (len s) ++ List.concat (map item s)).
Proof.
  unfold EncodeArray. apply EncodeArray_fn_appends; [exact He | exact Hn|].
  intros enc' v He'. specialize (Hfn enc' v He').
  destruct fn; exact Hfn.
Qed.

Lemma EncodeArray_writes_header_then_items_witness :
  written (EncodeArray VInt (NewEncoder 0) [1; 2; 300] None)
  = [0x93; 0x01; 0x02; 0xcc; 0x01; 0x2c].
Proof.
  assert (Hn : len [1; 2; 300] <= MaxUint32) by (vm_compute; discriminate).
  pose proof (EncodeArray_writes_header_then_items Z VInt (NewEncoder 0)
                [1; 2; 300] None
                (fun i => written (EncodeInt (NewEncoder 0) i))
                eq_refl Hn
                (fun enc' v He' => encode_as_appends TInt enc' v He')) as H.
  apply (proj1 (appends_written _ _ H)).
Defined.

(** X9: Encode of a []int is the array of its items: on an encoder without
    error and an accepting writer it adds the array header of the length
    and then, for each item in order, the bytes EncodeInt writes for it. *)
Theorem Encode_int_slice (enc : Encoder) (s : list Z)
    (He : err enc = None) (Hn : len s <= MaxUint32) :
  appends (Encode enc (VIntSlice s)) (out enc)
          (array_header (len s)
           ++ List.concat (map (fun i => written (EncodeInt (NewEncoder 0) i)) s)).
Proof.
  change (Encode enc (VIntSlice s))
    with (EncodeArray_fn enc s (fun enc v => EncodeInt enc v)).
  apply EncodeArray_fn_appends; [exact He | exact Hn|].
  intros enc' v He'. exact (encode_as_appends TInt enc' v He').
Qed.

Lemma Encode_int_slice_witness :
  written (Encode (NewEncoder 0) (VIntSlice [1; 2])) = [0x92; 0x01; 0x02].
Proof.
  assert (Hn : len [1; 2] <= MaxUint32) by (vm_compute; discriminate).
  apply (proj1 (appends_written _ _
                  (Encode_int_slice (NewEncoder 0) [1; 2] eq_refl Hn))).
Defined.




Lemma EncodeMap_range_appends K V (fn : Encoder -> K -> V -> M (option error))
    (item : K -> V -> list byte) :
  (forall enc k v, err enc = None -> appends (fn enc k v) (out enc) (item k v)) ->
  forall m enc, err enc = None ->
    appends (enc' <- EncodeMap_range enc m fn ;; ret (err enc'))
            (out enc)
            (List.concat (map (fun kv => item (fst kv) (snd kv)) m)).
Proof.
  intros Hfn. induction m as [|[k v] rest IH]; intros enc He.
  - simpl. unfold bind, ret. rewrite He. apply appends_ret.
  - simpl. rewrite He.
    eapply appends_ext; [intros w; apply bind_assoc|].
    apply appends_bind_none; [apply Hfn; exact He|].
    rewrite (with_err_same enc He). apply IH. exact He.
Qed.

(** X11: EncodeMap on an accepting writer: when each call of the entry
    encoder on an encoder without error adds the bytes [item k v] and
    returns nil, EncodeMap of a map of at most 4294967295 entries adds
    the map header of the number of entries followed by the entries'
    bytes in the order the map is ranged over, and returns nil.  With no
    function passed, an entry is its key and then its value, each
    written by Encode. *)
Theorem EncodeMap_writes_header_then_entries (K V : Type)
    (bk : K -> any) (bv : V -> any) (enc : Encoder) (m : list (K * V))
    (fn : option (Encoder -> K -> V -> M (option error)))
    (He : err enc = None) (Hn : len m <= MaxUint32) :
  (forall item,
      (forall f, fn = Some f -> forall enc' k v, err enc' = None ->
                 appends (f enc' k v) (out enc') (item k v)) ->
      fn <> None ->
      appends (EncodeMap bk bv enc m fn) (out enc)
              (map_header (len m)
               ++ List.concat (map (fun kv => item (fst kv) (snd kv)) m))) /\
  (forall kb vb,
      (forall enc' k, err enc' = None ->
                      appends (Encode enc' (bk k)) (out enc') (kb k)) ->
      (forall enc' v, err enc' = None ->
                      appends (Encode enc' (bv v)) (out enc') (vb v)) ->
      fn = None ->
      appends (EncodeMap bk bv enc m fn) (out enc)
              (map_header (len m)
               ++ List.concat (map (fun kv => kb (fst kv) ++ vb (snd kv)) m))).
Proof.
  assert (H0 : 0 <= len m) by (unfold len; lia).
  assert (Hh : appends (WriteMapHeader enc (len m)) (out enc) (map_header (len m))).
  { rewrite <- (proj1 (WriteMapHeader_written (len m) (conj H0 Hn))).
    apply WriteMapHeader_appends. exact He. }
  split.
  - intros item Hfn Hsome. destruct fn as [f|]; [|contradiction].
    unfold EncodeMap. apply appends_bind_none; [exact Hh|].
    apply EncodeMap_range_appends; [|exact He].
    intros enc' k v He'. apply (Hfn f eq_refl); exact He'.
  - intros kb vb Hk Hv ->.
    unfold EncodeMap. apply appends_bind_none; [exact Hh|].
    apply (EncodeMap_range_appends K V _ (fun k v => kb k ++ vb v)); [|exact He].
    intros enc' k v He'.
    apply appends_bind; [apply Hk; exact He' | intros _; apply Hv; exact He'].
Qed.

Lemma EncodeMap_writes_header_then_entries_witness :
  written (EncodeMap VInt VInt (NewEncoder 0) [(1, 10); (2, 20)] None)
  = [0x82; 0x01; 0x0a; 0x02; 0x14].
Proof.
  assert (Hn : len [(1, 10); (2, 20)] <= MaxUint32) by (vm_compute; discriminate).
  pose proof (proj2 (EncodeMap_writes_header_then_entries Z Z VInt VInt
                       (NewEncoder 0) [(1, 10); (2, 20)] None eq_refl Hn)
                (fun i => written (EncodeInt (NewEncoder 0) i))
                (fun i => written (EncodeInt (NewEncoder 0) i))
                (fun enc' v He' => encode_as_appends TInt enc' v He')
                (fun enc' v He' => encode_as_appends TInt enc' v He')
                eq_refl) as H.
  apply (proj1 (appends_written _ _ H)).
Defined.




(** ** Session controls *)

(** X13: ResetError returns the err of the stored encoder and sets it to
    nil, touching neither its writer, nor another encoder, nor any
    writer; called again at once it returns nil and the encoder stays as
    it is. *)
Theorem ResetError_returns_then_clears (p : nat) (w : World) :
  let w1 := fst (ResetError p w) in
  let w2 := fst (ResetError p w1) in
  snd (ResetError p w) = Returned (err (encoders w p)) /\
  encoders w1 p = mkEncoder (out (encoders w p)) None /\
  (forall q, q <> p -> encoders w1 q = encoders w q) /\
  writers w1 = writers w /\
  snd (ResetError p w1) = Returned None /\
  (forall q, encoders w2 q = encoders w1 q) /\
  writers w2 = writers w.
Proof.
  cbv zeta. unfold ResetError, set_encoder, with_err, upd. simpl.
  rewrite !Nat.eqb_refl. simpl.
  repeat split.
  - intros q Hq. apply Nat.eqb_neq in Hq. rewrite Hq. reflexivity.
  - intros q. destruct (Nat.eqb q p) eqn:E; reflexivity.
Qed.

(** X14: The error a Using scope returns is sticky afterwards: every later
    call that returns at all on a failed encoder returns that error and
    leaves the world alone, until ResetError hands the error out and
    clears it. *)
Theorem Using_error_is_sticky (p dest : nat) (fn : M (option error))
    (w w2 : World) (e : error) (c : call)
    (Hfn : fn (set_encoder p (with_out (encoders w p) dest) w)
           = (w2, Returned (Some e)))
    (Hc : sticky_verdict c = ReturnsSticky) :
  let w3 := fst (Using p dest fn w) in
  snd (Using p dest fn w) = Returned (Some e) /\
  call_on p (fun enc => invoke enc c) w3 = (w3, Returned (Some e)) /\
  snd (ResetError p w3) = Returned (Some e) /\
  err (encoders (fst (ResetError p w3)) p) = None.
Proof.
  cbv zeta.
  assert (Herr : err (encoders (fst (Using p dest fn w)) p) = Some e).
  { unfold Using, defer, bind. rewrite Hfn. simpl. unfold upd.
    rewrite !Nat.eqb_refl. reflexivity. }
  split; [unfold Using, defer, bind; rewrite Hfn; simpl; unfold upd;
          rewrite !Nat.eqb_refl; reflexivity|].
  split; [unfold call_on; apply sticky_invoke; assumption|].
  split.
  - unfold ResetError. simpl. rewrite Herr. reflexivity.
  - unfold ResetError. simpl. unfold upd. rewrite Nat.eqb_refl. reflexivity.
Qed.

Lemma Using_error_is_sticky_witness :
  let fn := _ = call_on 0 (fun enc => Encode enc (VInt 1492)) ;;
            ret (Some (WriterError 7)) in
  let w3 := fst (Using 0 1 fn fresh_world) in
  snd (Using 0 1 fn fresh_world) = Returned (Some (WriterError 7)) /\
  call_on 0 (fun enc => invoke enc (CallEncodeInt 5)) w3
  = (w3, Returned (Some (WriterError 7))) /\
  snd (ResetError 0 w3) = Returned (Some (WriterError 7)) /\
  err (encoders (fst (ResetError 0 w3)) 0%nat) = None.
Proof.
  cbv zeta.
  apply (Using_error_is_sticky 0 1
           (_ = call_on 0 (fun enc => Encode enc (VInt 1492)) ;;
            ret (Some (WriterError 7)))
           fresh_world
           (log_all 1 [[0xcc]; [0x05; 0xd4]]
              (set_encoder 0 (with_out (encoders fresh_world 0%nat) 1) fresh_world))
           (WriterError 7) (CallEncodeInt 5)); reflexivity.
Defined.

(** X15: Using sends the output of the calls made inside the scope to the
    writer passed: when the scope calls, on the stored encoder, a method
    that adds [bs] to an accepting writer, an encoder without error ends
    up as it was, the temporary writer holds [bs] in addition, the
    encoder's own writer is not touched and Using returns nil. *)
Theorem Using_redirects_output (p dest : nat)
    (method : Encoder -> M (option error)) (bs : list byte) (w : World)
    (He : err (encoders w p) = None)
    (Hd : dest <> out (encoders w p))
    (Hacc : accepts_all (writers w dest))
    (Hm : forall enc, err enc = None -> appends (method enc) (out enc) bs)
    (Hpe : forall enc, preserves_encoders (method enc)) :
  let run := Using p dest (call_on p method) w in
  snd run = Returned None /\
  contents (fst run) dest = contents w dest ++ bs /\
  writers (fst run) (out (encoders w p)) = writers w (out (encoders w p)) /\
  encoders (fst run) p = encoders w p.
Proof.
  cbv zeta. unfold Using, defer, bind, call_on.
  set (enc1 := with_out (encoders w p) dest).
  set (w1 := set_encoder p enc1 w).
  assert (E1 : encoders w1 p = enc1).
  { unfold w1, set_encoder, upd. simpl. rewrite Nat.eqb_refl. reflexivity. }
  rewrite E1.
  assert (He1 : err enc1 = None) by exact He.
  destruct (Hm enc1 He1 w1 Hacc) as (Hr & _ & Hc & Ho).
  pose proof (Hpe enc1 w1) as Hp.
  destruct (method enc1 w1) as [w2 r]. simpl in Hr, Hc, Ho, Hp. subst r.
  simpl. unfold upd. rewrite !Nat.eqb_refl. simpl.
  split; [reflexivity|]. split; [exact Hc|]. split.
  - apply Ho. intros Hx. apply Hd. symmetry. exact Hx.
  - destruct (encoders w p) as [o e]. simpl in *. subst e. reflexivity.
Qed.

Lemma Using_redirects_output_witness :
  let run := Using 0 1 (call_on 0 (fun enc => EncodeInt enc 1492)) fresh_world in
  snd run = Returned None /\
  contents (fst run) 1 = contents fresh_world 1 ++ [0xcc; 0x05; 0xd4] /\
  writers (fst run) (out (encoders fresh_world 0%nat))
  = writers fresh_world (out (encoders fresh_world 0%nat)) /\
  encoders (fst run) 0%nat = encoders fresh_world 0%nat.
Proof.
  cbv zeta.
  apply (Using_redirects_output 0 1 (fun enc => EncodeInt enc 1492)
           (written (EncodeInt (NewEncoder 0) 1492)) fresh_world).
  - reflexivity.
  - discriminate.
  - intros h q. reflexivity.
  - intros enc He. exact (encode_as_appends TInt enc 1492 He).
  - intros enc. apply pe_EncodeInt.
Defined.

(** X16: SetWriter changes the writer and nothing else: the err field stays
    (a failed encoder stays failed), no other encoder and no writer is
    touched; afterwards a call on the stored encoder, if it has no
    error, writes to the new writer. *)
Theorem SetWriter_retargets (p o : nat) (w : World) :
  let w1 := fst (SetWriter p o w) in
  encoders w1 p = mkEncoder o (err (encoders w p)) /\
  (forall q, q <> p -> encoders w1 q = encoders w q) /\
  writers w1 = writers w /\
  (forall e c, err (encoders w p) = Some e -> sticky_verdict c = ReturnsSticky ->
     call_on p (fun enc => invoke enc c) w1 = (w1, Returned (Some e))) /\
  (forall method bs,
     (forall enc, err enc = None -> appends (method enc) (out enc) bs) ->
     err (encoders w p) = None -> accepts_all (writers w o) ->
     snd (call_on p method w1) = Returned None /\
     contents (fst (call_on p method w1)) o = contents w o ++ bs).
Proof.
  cbv zeta. unfold SetWriter, set_encoder, with_out, call_on. simpl.
  unfold upd at 1. rewrite Nat.eqb_refl.
  split; [reflexivity|]. split.
  { intros q Hq. unfold upd. apply Nat.eqb_neq in Hq. rewrite Hq. reflexivity. }
  split; [reflexivity|]. split.
  - intros e c He Hc. unfold upd at 1. rewrite Nat.eqb_refl.
    apply sticky_invoke; [exact He | exact Hc].
  - intros method bs Hm He Hacc. unfold upd at 1 3. rewrite !Nat.eqb_refl.
    destruct (Hm (mkEncoder o (err (encoders w p))) He
                 (mkWorld (writers w)
                          (upd (encoders w) p (mkEncoder o (err (encoders w p)))))
                 Hacc) as (Hr & _ & Hc & _).
    split; [exact Hr | exact Hc].
Qed.

Lemma SetWriter_retargets_witness :
  let w1 := fst (SetWriter 0 1 fresh_world) in
  snd (call_on 0 (fun enc => EncodeInt enc 5) w1) = Returned None /\
  contents (fst (call_on 0 (fun enc => EncodeInt enc 5) w1)) 1
  = contents fresh_world 1 ++ [0x05].
Proof.
  cbv zeta.
  apply (proj2 (proj2 (proj2 (proj2 (SetWriter_retargets 0 1 fresh_world))))
           (fun enc => EncodeInt enc 5)
           (written (EncodeInt (NewEncoder 0) 5))).
  - intros enc He. exact (encode_as_appends TInt enc 5 He).
  - reflexivity.
  - intros h q. reflexivity.
Defined.

(** ** [string.go] *)

(** X17: String: on a pooled encoder without error whose writer is a buffer,
    String(s) returns, for a string of at most 4294967295 bytes, the
    string header of its length followed by its bytes, whatever the
    buffer held before; a reader of the format gets [s] back; the pooled
    encoder is left as it was found, without error. *)
Theorem String_returns_encoded_string (p : nat) (s : list byte) (w : World)
    (He : err (encoders w p) = None)
    (Hacc : accepts_all (writers w (out (encoders w p))))
    (Hn : len s <= MaxUint32) :
  snd (String' p s w) = Returned (string_header (len s) ++ s) /\
  decode_string (string_header (len s) ++ s) = Some s /\
  encoders (fst (String' p s w)) = encoders w.
Proof.
  unfold String', call_on, bind.
  set (buf := out (encoders w p)).
  set (w1 := buffer_Reset buf w).
  assert (E1 : encoders w1 = encoders w) by reflexivity.
  rewrite E1.
  assert (Hacc1 : accepts_all (writers w1 buf)).
  { intros h q. unfold w1, buffer_Reset, upd. simpl.
    rewrite Nat.eqb_refl. simpl. apply Hacc. }
  destruct (EncodeString_appends (encoders w p) s He Hn w1 Hacc1)
    as (Hr & _ & Hc & _).
  pose proof (pe_invoke (encoders w p) (CallEncodeString s) w1) as Hp.
  simpl in Hp.
  destruct (EncodeString (encoders w p) s w1) as [w2 r].
  simpl in Hr, Hc, Hp. subst r. simpl.
  split; [|split].
  - f_equal. fold buf in Hc. rewrite Hc.
    unfold contents, w1, buffer_Reset, upd. simpl.
    rewrite Nat.eqb_refl. reflexivity.
  - apply decode_string_table. exact Hn.
  - rewrite Hp. exact E1.
Qed.

Lemma String_returns_encoded_string_witness :
  let w := log_all 0 [[0x01; 0x02]] fresh_world in
  snd (String' 0 [0x69; 0x64] w) = Returned [0xa2; 0x69; 0x64].
Proof.
  cbv zeta.
  apply (proj1 (String_returns_encoded_string 0 [0x69; 0x64]
                  (log_all 0 [[0x01; 0x02]] fresh_world) eq_refl
                  (fun h q => eq_refl)
                  ltac:(vm_compute; discriminate))).
Defined.

(** ** What panics and what returns *)

Lemma returns_ret A (a : A) : returns (ret a).
Proof. intros w Hc. split; [exact Hc | exists a; reflexivity]. Qed.

Lemma returns_bind A B (m : M A) (k : A -> M B) :
  returns m -> (forall a, returns (k a)) -> returns (bind m k).
Proof.
  intros Hm Hk w Hc. unfold bind.
  destruct (Hm w Hc) as [Hc1 [a Ha]].
  destruct (m w) as [w1 r]. simpl in *. subst r. apply Hk. exact Hc1.
Qed.

Lemma returns_sticky e (m : M (option error)) : sticky e m -> returns m.
Proof.
  intros Hs w Hc. pose proof (Hs w) as Hw. destruct (m w) as [w1 r].
  injection Hw as -> ->. split; [exact Hc | eexists; reflexivity].
Qed.

Lemma returns_eq (m : M (option error)) :
  (forall w, calm w -> exists o ps r, m w = (log_all o ps w, Returned r)) ->
  returns m.
Proof.
  intros H w Hc. destruct (H w Hc) as (o & ps & r & Hw).
  destruct (m w) as [w1 r1]. injection Hw as -> ->.
  split; [apply calm_log_all; exact Hc | eexists; reflexivity].
Qed.

Lemma returns_Write enc b :
  err enc <> None \/ wire b <> None -> returns (Write enc b).
Proof.
  intros H. destruct (err enc) as [e|] eqn:He.
  - apply (returns_sticky e). apply sticky_Write. exact He.
  - destruct H as [H|H]; [contradiction|].
    destruct (wire b) as [p|] eqn:Hw; [|contradiction].
    apply returns_eq. intros w Hc. exists (out enc), [p]. eexists.
    apply single_calm; assumption.
Qed.

Lemma returns_encode_as t enc i : returns (encode_as t enc i).
Proof.
  destruct (err enc) as [e|] eqn:He.
  - apply (returns_sticky e).
    destruct t; simpl;
      [ apply (sticky_invoke e enc (CallEncodeInt8 i) He eq_refl)
      | apply (sticky_invoke e enc (CallEncodeInt16 i) He eq_refl)
      | apply (sticky_invoke e enc (CallEncodeInt32 i) He eq_refl)
      | apply (sticky_invoke e enc (CallEncodeInt64 i) He eq_refl)
      | apply (sticky_invoke e enc (CallEncodeInt i) He eq_refl)
      | apply (sticky_invoke e enc (CallEncodeUint8 i) He eq_refl)
      | apply (sticky_invoke e enc (CallEncodeUint16 i) He eq_refl)
      | apply (sticky_invoke e enc (CallEncodeUint32 i) He eq_refl)
      | apply (sticky_invoke e enc (CallEncodeUint64 i) He eq_refl)
      | apply (sticky_invoke e enc (CallEncodeUint i) He eq_refl) ].
  - apply returns_eq. intros w Hc. do 2 eexists. eexists.
    apply encode_as_calm; assumption.
Qed.

Lemma returns_EncodeString enc s : returns (EncodeString enc s).
Proof.
  destruct (err enc) as [e|] eqn:He.
  - apply (returns_sticky e). apply sticky_EncodeString. exact He.
  - apply returns_eq. intros w Hc. do 2 eexists. eexists.
    apply EncodeString_calm; assumption.
Qed.

Lemma returns_EncodeArray_range T (fn : Encoder -> T -> M (option error)) :
  (forall enc v, returns (fn enc v)) ->
  forall s enc, returns (EncodeArray_range enc s fn).
Proof.
  intros Hfn. induction s as [|v rest IH]; intros enc; simpl.
  - apply returns_ret.
  - destruct (err enc); [apply returns_ret|].
    apply returns_bind; [apply Hfn | intros e; apply IH].
Qed.

Lemma returns_WriteArrayHeader enc n : returns (WriteArrayHeader enc n).
Proof.
  destruct (err enc) as [e|] eqn:He.
  - apply (returns_sticky e). apply sticky_WriteArrayHeader. exact He.
  - apply returns_eq. intros w Hc. do 2 eexists. eexists.
    apply WriteArrayHeader_calm; assumption.
Qed.

Lemma returns_Encode enc v : Encode_has_case v = true -> returns (Encode enc v).
Proof.
  intros Hv. destruct v; simpl in Hv; try discriminate Hv; simpl.
  - apply returns_Write. right. discriminate.
  - destruct b; apply returns_Write; right; discriminate.
  - apply (returns_encode_as TInt).
  - apply (returns_encode_as TInt8).
  - apply (returns_encode_as TInt16).
  - apply (returns_encode_as TInt32).
  - apply (returns_encode_as TInt64).
  - apply (returns_encode_as TUint).
  - apply (returns_encode_as TUint8).
  - apply (returns_encode_as TUint16).
  - apply (returns_encode_as TUint32).
  - apply (returns_encode_as TUint64).
  - apply returns_EncodeString.
  - unfold EncodeArray_fn. apply returns_bind; [apply returns_WriteArrayHeader|].
    intros [e|]; [apply returns_ret|].
    apply returns_bind; [|intros; apply returns_ret].
    apply returns_EncodeArray_range. intros enc' i.
    apply (returns_encode_as TInt).
Qed.

(** X18: Encode panics exactly for the types its switch has no case for:
    float32, float64, []byte and any type outside the list; then nothing
    is written, whatever the state of the encoder.  For nil, a bool, any
    integer type, a string or a []int it returns, as long as no writer
    panics. *)
Theorem Encode_panics_exactly_without_case (enc : Encoder) (v : any)
    (w : World) (Hc : calm w) :
  (Encode_has_case v = false ->
   Encode enc v w = (w, Panicked (Errorf "Encode" ErrUnsupportedType))) /\
  (Encode_has_case v = true ->
   exists r, snd (Encode enc v w) = Returned r).
Proof.
  split.
  - intros Hv. destruct v; simpl in Hv; try discriminate Hv; reflexivity.
  - intros Hv. apply (returns_Encode enc v Hv w Hc).
Qed.

Lemma Encode_panics_exactly_without_case_witness :
  calm fresh_world /\
  Encode (NewEncoder 0) (VBytes (Some [1; 2])) fresh_world
  = (fresh_world, Panicked (Errorf "Encode" ErrUnsupportedType)) /\
  exists r, snd (Encode (NewEncoder 0) (VIntSlice [1; 2]) fresh_world)
            = Returned r.
Proof.
  assert (Hc : calm fresh_world) by (intros o h p v; simpl; discriminate).
  split; [exact Hc|]. split.
  - apply (proj1 (Encode_panics_exactly_without_case
                    (NewEncoder 0) (VBytes (Some [1; 2])) fresh_world Hc)).
    reflexivity.
  - apply (proj2 (Encode_panics_exactly_without_case
                    (NewEncoder 0) (VIntSlice [1; 2]) fresh_world Hc)).
    reflexivity.
Defined.

(** X19: Write panics exactly when the encoder has no error and the value is
    of a type outside its list (nil, bool, int, uint, string, []int and
    the like); then nothing is written.  With an error set it returns
    the error whatever the type; otherwise it returns, as long as the
    writer does not panic. *)
Theorem Write_panics_exactly_on_unsupported (enc : Encoder) (b : any)
    (w : World) (Hc : calm w) :
  (err enc = None -> wire b = None ->
   Write enc b w = (w, Panicked (Errorf "Write" ErrUnsupportedType))) /\
  (forall e, err enc = Some e -> Write enc b w = (w, Returned (Some e))) /\
  (wire b <> None -> exists r, snd (Write enc b w) = Returned r) /\
  wire VNil = None /\ wire VStruct = None /\
  (forall x, wire (VBool x) = None) /\
  (forall i, wire (VInt i) = None /\ wire (VUint i) = None) /\
  (forall s, wire (VString s) = None) /\
  (forall s, wire (VIntSlice s) = None).
Proof.
  split; [|split; [|split]].
  - intros He Hw. unfold Write. rewrite He.
    destruct b; simpl in Hw; try discriminate Hw; reflexivity.
  - intros e He. apply sticky_Write. exact He.
  - intros Hw. apply (returns_Write enc b (or_intror Hw) w Hc).
  - repeat split.
Qed.

Lemma Write_panics_exactly_on_unsupported_witness :
  calm fresh_world /\
  Write (NewEncoder 0) (VInt 0) fresh_world
  = (fresh_world, Panicked (Errorf "Write" ErrUnsupportedType)).
Proof.
  assert (Hc : calm fresh_world) by (intros o h p v; simpl; discriminate).
  split; [exact Hc|].
  apply (proj1 (Write_panics_exactly_on_unsupported
                  (NewEncoder 0) (VInt 0) fresh_world Hc)); reflexivity.
Defined.

(** ** The integer encoders against each other *)

Lemma conv_uint16_small v : 0 <= v <= 65535 -> conv_uint16 v = v.
Proof. intros H. apply to_unsigned_small. change (2 ^ 16) with 65536. lia. Qed.

Lemma conv_uint32_small v : 0 <= v <= 4294967295 -> conv_uint32 v = v.
Proof. intros H. apply to_unsigned_small. change (2 ^ 32) with 4294967296. lia. Qed.

Lemma conv_uint64_small v : 0 <= v <= 18446744073709551615 -> conv_uint64 v = v.
Proof.
  intros H. apply to_unsigned_small.
  change (2 ^ 64) with 18446744073709551616. lia.
Qed.

Ltac all_small_convs :=
  rewrite ?conv_int8_small, ?conv_int16_small, ?conv_int32_small,
    ?conv_int64_small, ?conv_uint16_small, ?conv_uint32_small,
    ?conv_uint64_small by lia;
  rewrite ?conv_uint8_small by lia.

Ltac use_unsigned_above_127 Hp i :=
  let H16 := fresh "H16" in
  let H32 := fresh "H32" in
  destruct Hp as [H16 H32];
  try (assert (i <= 255)
        by (apply Z.lt_succ_r; apply Z.nle_gt; intros Hx; apply H16;
            split; [reflexivity | lia]));
  try (assert (i <= 65535)
        by (apply Z.lt_succ_r; apply Z.nle_gt; intros Hx; apply H32;
            split; [reflexivity | lia]));
  clear H16 H32.

Lemma encode_as_EncodeInt t enc i w :
  in_range t i -> unsigned_above_127 t i -> i <= MaxInt64 ->
  encode_as t enc i w = EncodeInt enc i w.
Proof.
  intros Hr Hp Hi.
  destruct t; use_unsigned_above_127 Hp i;
    unfold encode_as, EncodeInt8, EncodeInt16, EncodeInt32,
      EncodeInt64, EncodeInt, EncodeUint8, EncodeUint16, EncodeUint32,
      EncodeUint64, EncodeUint;
    unfold_bounds; leb_cases; all_small_convs; reflexivity.
Qed.

Lemma EncodeUint64_EncodeUint enc i w :
  in_range TUint64 i -> EncodeUint64 enc i w = EncodeUint enc i w.
Proof.
  intros Hr. unfold EncodeUint64, EncodeUint. unfold_bounds.
  leb_cases; all_small_convs; reflexivity.
Qed.

(** X20: The integer encoders agree with each other: a value that two of
    them accept is written by both in the same way (same requests, same
    result, in any world), except that EncodeInt16 from 256 and
    EncodeInt32 from 65536 keep their signed form. *)
Theorem integer_encoders_agree (t1 t2 : int_type) (enc : Encoder) (i : Z)
    (w : World)
    (H1 : in_range t1 i) (H2 : in_range t2 i)
    (P1 : unsigned_above_127 t1 i) (P2 : unsigned_above_127 t2 i) :
  encode_as t1 enc i w = encode_as t2 enc i w.
Proof.
  destruct (Z_le_gt_dec i MaxInt64) as [Hi|Hi].
  - rewrite (encode_as_EncodeInt t1 enc i w H1 P1 Hi).
    rewrite (encode_as_EncodeInt t2 enc i w H2 P2 Hi). reflexivity.
  - assert (Ht : forall t, in_range t i ->
                   encode_as t enc i w = EncodeUint enc i w).
    { intros t Ht. destruct t; try (exfalso; unfold_bounds; lia).
      - apply EncodeUint64_EncodeUint. exact Ht.
      - reflexivity. }
    rewrite (Ht t1 H1), (Ht t2 H2). reflexivity.
Qed.

Lemma integer_encoders_agree_witness :
  encode_as TUint16 (NewEncoder 0) 1024 fresh_world
  = encode_as TInt (NewEncoder 0) 1024 fresh_world.
Proof.
  apply integer_encoders_agree.
  - unfold_bounds; lia.
  - unfold_bounds; lia.
  - split; intros [Hx _]; discriminate Hx.
  - split; intros [Hx _]; discriminate Hx.
Defined.

(** ** Header writers and negative lengths *)

(** X21: A negative length is not rejected: the first comparison that holds
    is [len < 16] (or [len < 32]), so each header writer writes the one
    byte made of its fix mask and the low eight bits of the length, and
    returns nil. *)
Theorem header_writers_take_negative_length (enc : Encoder) (n : Z)
    (He : err enc = None) (Hn : n < 0) :
  appends (WriteArrayHeader enc n) (out enc) [Z.lor maskFixArray (conv_byte n)] /\
  appends (WriteMapHeader enc n) (out enc) [Z.lor maskFixMap (conv_byte n)] /\
  appends (WriteStringHeader enc n) (out enc)
          [Z.lor maskFixString (conv_byte n)].
Proof.
  assert (Ha : written (WriteArrayHeader (NewEncoder 0) n)
               = [Z.lor maskFixArray (conv_byte n)]).
  { unfold written, WriteArrayHeader. leb_cases. reflexivity. }
  assert (Hm : written (WriteMapHeader (NewEncoder 0) n)
               = [Z.lor maskFixMap (conv_byte n)]).
  { unfold written, WriteMapHeader. leb_cases. reflexivity. }
  assert (Hs : written (WriteStringHeader (NewEncoder 0) n)
               = [Z.lor maskFixString (conv_byte n)]).
  { unfold written, WriteStringHeader. leb_cases. reflexivity. }
  rewrite <- Ha, <- Hm, <- Hs.
  split; [|split].
  - apply WriteArrayHeader_appends; exact He.
  - apply WriteMapHeader_appends; exact He.
  - apply WriteStringHeader_appends; exact He.
Qed.

Lemma header_writers_take_negative_length_witness :
  written (WriteArrayHeader (NewEncoder 0) (-1)) = [0xff] /\
  written (WriteStringHeader (NewEncoder 0) (-256)) = [0xa0].
Proof.
  destruct (header_writers_take_negative_length (NewEncoder 0) (-1) eq_refl
              ltac:(lia)) as (Ha & _ & _).
  destruct (header_writers_take_negative_length (NewEncoder 0) (-256) eq_refl
              ltac:(lia)) as (_ & _ & Hs).
  split.
  - apply (proj1 (appends_written _ _ Ha)).
  - apply (proj1 (appends_written _ _ Hs)).
Defined.
